(** * Fornax query API: a shallow embedding of [fornax/api.py]

    The development follows the Python module top to bottom: the
    identifier hash [_hash] (with SHA-256 written out), the ingestion
    guards [check_edges] and [check_matches], the presentation classes
    [Node] and [Edge], the persistence layer seen through the calls the
    module makes on it, and [QueryHandle.execute] with its helpers.

    Conventions.
    - Python [int] is [Z]; Python [float] is idealised as an exact
      rational [Q] (no rounding, no infinities, no NaN).
    - An exception is a value of [exn]; code that may raise returns
      [result A].
    - The tables of the database are lists of rows in storage order. *)

From Stdlib Require Import ZArith List String Ascii Bool Lia QArith.
From Stdlib Require Import Permutation Sorted DecimalString Lqa.
Import ListNotations.
Set Warnings "-register-all".
Local Open Scope string_scope.
Local Open Scope list_scope.
Local Open Scope Z_scope.

(** ** SHA-256 (FIPS 180-4), as [hashlib.sha256] computes it *)

Module SHA256.

Definition w32 : Z := 2 ^ 32.
Definition add32 (a b : Z) : Z := (a + b) mod w32.
Definition rotr (n x : Z) : Z :=
  Z.lor (Z.shiftr x n) ((Z.shiftl x (32 - n)) mod w32).
Definition shr (n x : Z) : Z := Z.shiftr x n.
Definition not32 (x : Z) : Z := w32 - 1 - x.

Definition Ch (x y z : Z) : Z := Z.lxor (Z.land x y) (Z.land (not32 x) z).
Definition Maj (x y z : Z) : Z :=
  Z.lxor (Z.lxor (Z.land x y) (Z.land x z)) (Z.land y z).
Definition Sigma0 (x : Z) : Z := Z.lxor (Z.lxor (rotr 2 x) (rotr 13 x)) (rotr 22 x).
Definition Sigma1 (x : Z) : Z := Z.lxor (Z.lxor (rotr 6 x) (rotr 11 x)) (rotr 25 x).
Definition sigma0 (x : Z) : Z := Z.lxor (Z.lxor (rotr 7 x) (rotr 18 x)) (shr 3 x).
Definition sigma1 (x : Z) : Z := Z.lxor (Z.lxor (rotr 17 x) (rotr 19 x)) (shr 10 x).

(** The round constants are the first 32 bits of the fractional parts
    of the cube roots of the first 64 primes, the initial hash value
    those of the square roots of the first 8. *)
Definition primes : list Z :=
  [ 2; 3; 5; 7; 11; 13; 17; 19; 23; 29; 31; 37; 41; 43; 47; 53;
    59; 61; 67; 71; 73; 79; 83; 89; 97; 101; 103; 107; 109; 113; 127; 131;
    137; 139; 149; 151; 157; 163; 167; 173; 179; 181; 191; 193; 197; 199;
    211; 223; 227; 229; 233; 239; 241; 251; 257; 263; 269; 271; 277; 281;
    283; 293; 307; 311 ].

Fixpoint cube_root_bits (bits : nat) (n r : Z) : Z :=
  match bits with
  | O => r
  | S b =>
      let t := r + 2 ^ Z.of_nat b in
      cube_root_bits b n (if t * t * t <=? n then t else r)
  end.

Definition frac_cube_root (p : Z) : Z := cube_root_bits 36 (p * 2 ^ 96) 0 mod w32.
Definition frac_square_root (p : Z) : Z := Z.sqrt (p * 2 ^ 64) mod w32.

Definition K : list Z := Eval vm_compute in map frac_cube_root primes.

(** Padding: a 1 bit, zeros up to 56 mod 64 bytes, the bit length on 8 bytes. *)
Fixpoint be_bytes (n : nat) (x : Z) : list Z :=
  match n with
  | O => []
  | S n' => be_bytes n' (x / 256) ++ [x mod 256]
  end.

Definition pad (msg : list Z) : list Z :=
  let len := Z.of_nat (List.length msg) in
  let zeros := Z.to_nat ((55 - len) mod 64) in
  msg ++ [0x80] ++ repeat 0 zeros ++ be_bytes 8 (8 * len).

Fixpoint words (fuel : nat) (bs : list Z) : list Z :=
  match fuel, bs with
  | S f, a :: b :: c :: d :: rest =>
      (((a * 256 + b) * 256 + c) * 256 + d) :: words f rest
  | _, _ => []
  end.

(** The message schedule, kept most recent word first. *)
Fixpoint extend (n : nat) (rev_w : list Z) : list Z :=
  match n with
  | O => rev_w
  | S n' =>
      let w := add32 (add32 (sigma1 (nth 1 rev_w 0)) (nth 6 rev_w 0))
                     (add32 (sigma0 (nth 14 rev_w 0)) (nth 15 rev_w 0)) in
      extend n' (w :: rev_w)
  end.

Definition schedule (block : list Z) : list Z := rev (extend 48 (rev block)).

Record regs := Regs { ra : Z; rb : Z; rc : Z; rd : Z; re : Z; rf : Z; rg : Z; rh : Z }.

Definition round (s : regs) (kw : Z * Z) : regs :=
  let '(k, w) := kw in
  let t1 := add32 (add32 (add32 (rh s) (Sigma1 (re s)))
                         (add32 (Ch (re s) (rf s) (rg s)) k)) w in
  let t2 := add32 (Sigma0 (ra s)) (Maj (ra s) (rb s) (rc s)) in
  Regs (add32 t1 t2) (ra s) (rb s) (rc s) (add32 (rd s) t1) (re s) (rf s) (rg s).

Definition compress (h : regs) (block : list Z) : regs :=
  let s := fold_left round (combine K (schedule block)) h in
  Regs (add32 (ra h) (ra s)) (add32 (rb h) (rb s)) (add32 (rc h) (rc s))
       (add32 (rd h) (rd s)) (add32 (re h) (re s)) (add32 (rf h) (rf s))
       (add32 (rg h) (rg s)) (add32 (rh h) (rh s)).

Fixpoint blocks (fuel : nat) (h : regs) (ws : list Z) : regs :=
  match fuel with
  | O => h
  | S f =>
      match ws with
      | [] => h
      | _ => blocks f (compress h (firstn 16 ws)) (skipn 16 ws)
      end
  end.

Definition init : regs :=
  Eval vm_compute in
    match map frac_square_root (firstn 8 primes) with
    | [a; b; c; d; e; f; g; h] => Regs a b c d e f g h
    | _ => Regs 0 0 0 0 0 0 0 0
    end.

(** The digest read as one big-endian integer: [int(hexdigest(), 16)]. *)
Definition digest_int (msg : list Z) : Z :=
  let p := pad msg in
  let ws := words (List.length p) p in
  let h := blocks (List.length ws) init ws in
  fold_left (fun acc x => acc * w32 + x)
    [ra h; rb h; rc h; rd h; re h; rf h; rg h; rh h] 0.

End SHA256.

Definition bytes_of_string (s : string) : list Z :=
  map (fun c => Z.of_N (N_of_ascii c)) (list_ascii_of_string s).

(** ** Python values that reach [_hash], and their display strings *)

(** Keys handed to [_hash]: integers, strings and tuples of keys (the
    module hashes [(id, type)] pairs and tuples of matched pairs). *)
Inductive pykey : Type :=
| KInt (z : Z)
| KStr (s : string)
| KTuple (l : list pykey).

Definition str_of_Z (z : Z) : string := NilZero.string_of_int (Z.to_int z).

Definition hex_digit (n : Z) : ascii :=
  ascii_of_N (Z.to_N (if n <? 10 then 48 + n else 87 + n)).

Definition has_char (c : ascii) (s : string) : bool :=
  existsb (Ascii.eqb c) (list_ascii_of_string s).

(** [repr] of a [str]: single quotes unless the text has a single quote
    and no double quote; backslash, the quote in use, newline, carriage
    return and tab are escaped, other control characters print as \xNN. *)
Definition repr_char (quote : ascii) (c : ascii) : string :=
  let n := Z.of_N (N_of_ascii c) in
  if Ascii.eqb c "\"%char then "\\"
  else if Ascii.eqb c quote then String "\"%char (String c EmptyString)
  else if n =? 10 then "\n"
  else if n =? 13 then "\r"
  else if n =? 9 then "\t"
  else if (n <? 32) || (n =? 127) then
    String "\"%char (String "x"%char
      (String (hex_digit (n / 16)) (String (hex_digit (n mod 16)) EmptyString)))
  else String c EmptyString.

Definition double_quote : ascii := ascii_of_N 34.

Definition repr_str (s : string) : string :=
  let quote : ascii :=
    if has_char "'"%char s && negb (has_char double_quote s)
    then double_quote else "'"%char in
  String quote
    (String.concat EmptyString (map (repr_char quote) (list_ascii_of_string s))
     ++ String quote EmptyString)%string.

Fixpoint repr (k : pykey) : string :=
  match k with
  | KInt z => str_of_Z z
  | KStr s => repr_str s
  | KTuple l =>
      match l with
      | [x] => ("(" ++ repr x ++ ",)")%string
      | _ => ("(" ++ String.concat ", " (map repr l) ++ ")")%string
      end
  end.

(** The builtin [str]: a string is itself, anything else prints as [repr]. *)
Definition str (k : pykey) : string :=
  match k with
  | KStr s => s
  | _ => repr k
  end.

(** [a < b] on rationals. *)
Definition Qltb (a b : Q) : bool := negb (Qle_bool b a).

(** ** Exceptions *)

Inductive exn : Type :=
| ValueError (msg : string)
| TypeError (msg : string)
| KeyError (key : Z * Z)
| ZeroDivisionError
| AttributeError (msg : string)
| InvalidEdgeError (msg : string).

Inductive result (A : Type) : Type :=
| Ok (a : A)
| Raise (e : exn).
Arguments Ok {A} a.
Arguments Raise {A} e.

Definition rbind {A B : Type} (r : result A) (k : A -> result B) : result B :=
  match r with
  | Ok a => k a
  | Raise e => Raise e
  end.

(** A loop whose body may raise: the first exception ends it. *)
Fixpoint mapM {A B : Type} (f : A -> result B) (l : list A) : result (list B) :=
  match l with
  | [] => Ok []
  | x :: l' =>
      rbind (f x) (fun y => rbind (mapM f l') (fun ys => Ok (y :: ys)))
  end.

(** ** Field values *)

(** What a caller can put in a column or a metadata field, plus the
    filler [NullValue()] that [zip_longest] supplies for short columns. *)
Inductive pyval : Type :=
| VInt (z : Z)
| VFloat (q : Q)
| VBool (b : bool)
| VStr (s : string)
| VNone
| VNullValue.

(** A metadata dictionary; insertion order is kept, as Python does. *)
Definition pydict : Type := list (string * pyval).

Fixpoint dict_get (k : string) (d : pydict) : option pyval :=
  match d with
  | [] => None
  | (k', v) :: d' => if String.eqb k k' then Some v else dict_get k d'
  end.

(** [d[k] = v]: an existing key keeps its place, a new one goes last. *)
Fixpoint dict_set (k : string) (v : pyval) (d : pydict) : pydict :=
  match d with
  | [] => [(k, v)]
  | (k', v') :: d' =>
      if String.eqb k k' then (k, v) :: d' else (k', v') :: dict_set k v d'
  end.

(** [{**a, **b}] *)
Definition dict_merge (a b : pydict) : pydict :=
  fold_left (fun d kv => dict_set (fst kv) (snd kv) d) b a.

(** [{key: val for key, val in zip(keys, values)}] *)
Definition dict_of_zip (keys : list string) (values : list pyval) : pydict :=
  dict_merge [] (combine keys values).

(** [json.dumps] refuses the filler object; every other field value
    survives [json.loads (json.dumps d)], so a stored [meta] is kept as
    the dictionary itself. *)
Definition json_dumps (d : pydict) : result pydict :=
  if existsb (fun kv => match snd kv with VNullValue => true | _ => false end) d
  then Raise (TypeError "Object of type NullValue is not JSON serializable")
  else Ok d.

(** ** The platform *)

Inductive word_size : Type := W32 | W64.

(** The platform a process runs on: the width of [Py_ssize_t], which
    fixes [sys.maxsize], the environment variable [FORNAX_DB_URL], and
    the string parsers of the builtins [int] and [float]
    ([None] when the builtin raises [ValueError]; a parsed float is
    [None] when it is an infinity or a NaN). *)
Record platform : Type := {
  ssize : word_size;
  FORNAX_DB_URL : option string;
  int_of_string : string -> option Z;
  float_of_string : string -> option (option Q)
}.

(** ** The persistence layer, as the module sees it *)

(** Rows of [fornax.model]; the columns are those the module reads and
    writes.  [model.Edge] and [model.Match] objects are built from
    caller data before they are checked, so their fields are field
    values; a stored edge keeps the integers they coerce to. *)
Record node_row : Type := {
  node_id : Z; n_graph_id : Z; n_meta : pydict }.

Record model_edge : Type := {
  me_start : pyval; me_end : pyval; me_graph_id : Z; me_meta : pydict }.

Record edge_row : Type := {
  e_start : Z; e_end : Z; e_graph_id : Z; e_meta : pydict }.

Record query_row : Type := {
  q_query_id : Z; start_graph_id : Z; end_graph_id : Z }.

Record model_match : Type := {
  m_start : pyval; m_end : pyval;
  m_start_graph_id : Z; m_end_graph_id : Z;
  m_query_id : Z; m_weight : pyval; m_meta : pydict }.

Record store : Type := {
  graphs : list Z;
  nodes : list node_row;
  edges : list edge_row;
  queries : list query_row;
  matches : list model_match }.

(** The calls made on the two other modules of the package. *)
Inductive event : Type :=
| EvJoin (query_id h : Z)
| EvSolve (h max_iters : Z).

Record world : Type := { db : store; calls : list event }.

(** State and exceptions: a method runs on a world and returns a value
    or raises, together with the world it leaves. *)
Definition M (A : Type) : Type := world -> result A * world.

Definition ret {A : Type} (a : A) : M A := fun w => (Ok a, w).
Definition raise {A : Type} (e : exn) : M A := fun w => (Raise e, w).
Definition bind {A B : Type} (m : M A) (k : A -> M B) : M B :=
  fun w =>
    match m w with
    | (Ok a, w') => k a w'
    | (Raise e, w') => (Raise e, w')
    end.
Definition lift {A : Type} (r : result A) : M A := fun w => (r, w).
Definition read {A : Type} (f : store -> A) : M A := fun w => (Ok (f (db w)), w).
Definition emit (ev : event) : M unit :=
  fun w => (Ok tt, {| db := db w; calls := calls w ++ [ev] |}).

(** [with session_scope() as session: ...] around a block that writes:
    the block's rows are committed when it returns and rolled back when
    it raises. *)
Definition session_scope (block : store -> result store) : M unit :=
  fun w =>
    match block (db w) with
    | Ok s' => (Ok tt, {| db := s'; calls := calls w |})
    | Raise e => (Raise e, w)
    end.

Notation "x <- c ;; k" := (bind c (fun x => k))
  (at level 61, c at next level, right associativity).
Notation "c ;;; k" := (bind c (fun _ => k))
  (at level 61, right associativity).

(** ** [sorted]: a stable sort that only asks [<] *)

Section Sorting.

Context {A : Type} (lt : A -> A -> bool).

Fixpoint insert_sorted (x : A) (l : list A) : list A :=
  match l with
  | [] => [x]
  | y :: l' => if lt y x then y :: insert_sorted x l' else x :: y :: l'
  end.

(** An element stays in front of the later elements it is not greater
    than, so equal elements keep their input order. *)
Fixpoint sorted (l : list A) : list A :=
  match l with
  | [] => []
  | x :: l' => insert_sorted x (sorted l')
  end.

End Sorting.

(** [itertools.zip_longest( *cols, fillvalue=NullValue())] *)
Definition zip_longest (cols : list (list pyval)) : list (list pyval) :=
  let n := fold_right Nat.max 0%nat (map (@List.length pyval) cols) in
  map (fun i => map (fun col => nth i col VNullValue) cols) (seq 0 n).

(** ** The classes [Node] and [Edge] *)

(** The constructors raise unless the type is one of these names; the
    module only ever passes the three literals. *)
Inductive role : Type := RQuery | RTarget | RMatch.

Definition role_name (r : role) : string :=
  match r with
  | RQuery => "query"
  | RTarget => "target"
  | RMatch => "match"
  end.

Record Node : Type := { nid : Z; ntype : role; nmeta : pydict }.

Record Edge : Type := {
  start : Z; end_ : Z; etype : role; emeta : option pydict; weight : Q }.

(** [Edge(start, end, edge_type, meta)] with the default [weight=1.] *)
Definition mkEdge (s e : Z) (t : role) (meta : option pydict) : Edge :=
  {| start := s; end_ := e; etype := t; emeta := meta; weight := 1 |}.

(** [Node.__lt__]: tuples [(type, id)] compared left to right. *)
Definition Node_lt (a b : Node) : bool :=
  if String.eqb (role_name (ntype a)) (role_name (ntype b))
  then nid a <? nid b
  else String.ltb (role_name (ntype a)) (role_name (ntype b)).

(** [Edge.__lt__]: tuples [(type, start, end)]. *)
Definition Edge_lt (a b : Edge) : bool :=
  if String.eqb (role_name (etype a)) (role_name (etype b))
  then if start a =? start b then end_ a <? end_ b else start a <? start b
  else String.ltb (role_name (etype a)) (role_name (etype b)).

(** ** What the optimiser returns *)

(** The five values unpacked from [fornax.opt.solve]; the array of
    target edges is read by its fields [u], [uu] and [dist_u]. *)
Record arr_row : Type := { u : Z; uu : Z; dist_u : Z }.

Record solution : Type := {
  inference_costs : list ((Z * Z) * Q);
  subgraphs : list (list (Z * Z));
  iters : Z;
  sz : Q;
  target_edges_arr : list arr_row }.

(** ** What [execute] returns *)

Record graph : Type := {
  is_multigraph : bool;
  cost : Q;
  g_nodes : list pydict;
  links : list pydict }.

Record query_result : Type := {
  r_graphs : list graph;
  r_iters : Z;
  r_hopping_distance : Z;
  r_max_iters : Z }.

(** ** Nodes on their way to the database *)

(** A [model.Node] before it is checked; a stored node keeps the
    integer its identifier coerces to. *)
Record model_node : Type := {
  mn_node_id : pyval; mn_graph_id : Z; mn_meta : pydict }.

(** [InvalidNodeError] is raised by [check_nodes] alone, so what the
    two functions raise is that error or one of the exceptions above. *)
Inductive node_exn : Type :=
| InvalidNodeError (msg : string)
| Uncaught (e : exn).

Inductive node_result (A : Type) : Type :=
| Checked (a : A)
| Refused (e : node_exn).
Arguments Checked {A} a.
Arguments Refused {A} e.

Fixpoint node_mapM {A B : Type} (f : A -> node_result B) (l : list A)
  : node_result (list B) :=
  match l with
  | [] => Checked []
  | x :: l' =>
      match f x with
      | Refused e => Refused e
      | Checked y =>
          match node_mapM f l' with
          | Refused e => Refused e
          | Checked ys => Checked (y :: ys)
          end
      end
  end.

(** * Sample data *)

(** A 64-bit process on the default in-memory SQLite database, whose
    [int] and [float] read plain decimal integers. *)
Fixpoint parse_digits (acc : Z) (l : list ascii) : option Z :=
  match l with
  | [] => Some acc
  | c :: l' =>
      let n := Z.of_N (N_of_ascii c) in
      if (48 <=? n) && (n <=? 57) then parse_digits (acc * 10 + (n - 48)) l'
      else None
  end.

Definition decimal (s : string) : option Z :=
  match list_ascii_of_string s with
  | [] => None
  | l => parse_digits 0 l
  end.

Definition P64 : platform :=
  {| ssize := W64;
     FORNAX_DB_URL := None;
     int_of_string := decimal;
     float_of_string := fun s => option_map (fun z => Some (inject_Z z)) (decimal s) |}.

(** A query graph 1 - 2 (graph 0) against a target graph 33477 - 7 -
    34441 (graph 1), with the matches 1 ~ 33477 and 2 ~ 7. *)
Definition sample_store : store :=
  {| graphs := [0; 1];
     nodes :=
       [ {| node_id := 1; n_graph_id := 0; n_meta := [("name", VStr "a")] |};
         {| node_id := 2; n_graph_id := 0; n_meta := [("name", VStr "b")] |};
         {| node_id := 33477; n_graph_id := 1; n_meta := [("name", VStr "c")] |};
         {| node_id := 34441; n_graph_id := 1; n_meta := [("name", VStr "d")] |};
         {| node_id := 7; n_graph_id := 1; n_meta := [("name", VStr "e")] |} ];
     edges :=
       [ {| e_start := 1; e_end := 2; e_graph_id := 0; e_meta := [] |};
         {| e_start := 2; e_end := 1; e_graph_id := 0; e_meta := [] |};
         {| e_start := 33477; e_end := 7; e_graph_id := 1;
            e_meta := [("kind", VStr "road")] |};
         {| e_start := 7; e_end := 33477; e_graph_id := 1;
            e_meta := [("kind", VStr "road")] |};
         {| e_start := 34441; e_end := 7; e_graph_id := 1;
            e_meta := [("kind", VStr "rail")] |};
         {| e_start := 7; e_end := 34441; e_graph_id := 1;
            e_meta := [("kind", VStr "rail")] |} ];
     queries := [ {| q_query_id := 0; start_graph_id := 0; end_graph_id := 1 |} ];
     matches :=
       [ {| m_start := VInt 1; m_end := VInt 33477; m_start_graph_id := 0;
            m_end_graph_id := 1; m_query_id := 0; m_weight := VFloat 1;
            m_meta := [] |};
         {| m_start := VInt 2; m_end := VInt 7; m_start_graph_id := 0;
            m_end_graph_id := 1; m_query_id := 0; m_weight := VFloat (1 # 2);
            m_meta := [] |} ] |}.

Definition sample_world : world := {| db := sample_store; calls := [] |}.

(** The same database before any match was added. *)
Definition unmatched_world : world :=
  {| db := {| graphs := graphs sample_store; nodes := nodes sample_store;
              edges := edges sample_store; queries := queries sample_store;
              matches := [] |};
     calls := [] |}.

(** A stand-in for the optimiser: whatever it is given, two
    alignments, the full one and the one that leaves query node 1
    out. *)
Definition sample_solution : solution :=
  {| inference_costs := [ ((1, 33477), 0%Q); ((2, 7), (1 # 4)%Q) ];
     subgraphs := [ [(2, 7)]; [(1, 33477); (2, 7)] ];
     iters := 3;
     sz := 2%Q;
     target_edges_arr :=
       [ {| u := 33477; uu := 7; dist_u := 1 |};
         {| u := 34441; uu := 7; dist_u := 1 |};
         {| u := 33477; uu := 34441; dist_u := 2 |} ] |}.

Definition sample_join (s : store) (query_id h : Z) : list unit := [].

Definition sample_solve (records : list unit) (h max_iters : Z) : result solution :=
  Ok sample_solution.

(** What [execute] returns on the sample with [n=5],
    [hopping_distance=2] and [max_iters=10]. *)
Definition sample_result : query_result :=
  {|
  r_graphs :=
    [{|
       is_multigraph := false;
       cost := 1 # 8;
       g_nodes :=
         [[("id", VInt 1325512080); ("type", VStr "query"); ("name", VStr "a")];
          [("id", VInt 1876249886); ("type", VStr "query"); ("name", VStr "b")];
          [("id", VInt 1556360984); ("type", VStr "target"); ("name", VStr "e")];
          [("id", VInt 334229712); ("type", VStr "target"); ("name", VStr "c")];
          [("id", VInt 334229712); ("type", VStr "target"); ("name", VStr "d")]];
       links :=
         [[("source", VInt 1325512080); ("target", VInt 334229712);
           ("type", VStr "match"); ("weight", VFloat 1)];
          [("source", VInt 1876249886); ("target", VInt 1556360984);
           ("type", VStr "match"); ("weight", VFloat (3 # 4))];
          [("source", VInt 1325512080); ("target", VInt 1876249886);
           ("type", VStr "query"); ("weight", VFloat 1)];
          [("source", VInt 1556360984); ("target", VInt 334229712);
           ("type", VStr "target"); ("weight", VFloat 1);
           ("kind", VStr "road")];
          [("source", VInt 1556360984); ("target", VInt 334229712);
           ("type", VStr "target"); ("weight", VFloat 1);
           ("kind", VStr "rail")]]
     |};
     {|
       is_multigraph := false;
       cost := 5 # 8;
       g_nodes :=
         [[("id", VInt 1325512080); ("type", VStr "query"); ("name", VStr "a")];
          [("id", VInt 1876249886); ("type", VStr "query"); ("name", VStr "b")];
          [("id", VInt 1556360984); ("type", VStr "target"); ("name", VStr "e")]];
       links :=
         [[("source", VInt 1876249886); ("target", VInt 1556360984);
           ("type", VStr "match"); ("weight", VFloat (3 # 4))];
          [("source", VInt 1325512080); ("target", VInt 1876249886);
           ("type", VStr "query"); ("weight", VFloat 1)]]
     |}];
  r_iters := 3;
  r_hopping_distance := 2;
  r_max_iters := 10
  |}.

(** A match of a node identifier with the same identifier on the other
    side. *)
Definition self_match : model_match :=
  {| m_start := VInt 5; m_end := VInt 5; m_start_graph_id := 0;
     m_end_graph_id := 1; m_query_id := 0; m_weight := VFloat (1 # 2);
     m_meta := [] |}.

(** A match whose start is not a whole number. *)
Definition fractional_match : model_match :=
  {| m_start := VFloat (3 # 2); m_end := VInt 7; m_start_graph_id := 0;
     m_end_graph_id := 1; m_query_id := 0; m_weight := VFloat 1;
     m_meta := [] |}.


(** A solver whose first alignment is empty. *)
Definition hollow_solution : solution :=
  {| inference_costs := [ ((2, 7), (1 # 4)%Q) ];
     subgraphs := [ []; [(2, 7)] ];
     iters := 1;
     sz := 2%Q;
     target_edges_arr := [] |}.

Definition hollow_solve (records : list unit) (h max_iters : Z)
  : result solution := Ok hollow_solution.

(** A solver whose alignment holds a pair it gives no cost for. *)
Definition costless_solution : solution :=
  {| inference_costs := [];
     subgraphs := [ [(1, 33477)] ];
     iters := 1;
     sz := 2%Q;
     target_edges_arr := [] |}.

Definition costless_solve (records : list unit) (h max_iters : Z)
  : result solution := Ok costless_solution.

(** The sample's query and matches over graphs that hold no node. *)
Definition nodeless_world : world :=
  {| db := {| graphs := graphs sample_store; nodes := []; edges := [];
              queries := queries sample_store;
              matches := matches sample_store |};
     calls := [] |}.

(** The rows of the sample kept in the opposite order. *)
Definition reversed_store : store :=
  {| graphs := graphs sample_store; nodes := rev (nodes sample_store);
     edges := rev (edges sample_store); queries := queries sample_store;
     matches := matches sample_store |}.

(** A node whose metadata has a field named as one of the payload. *)
Definition typed_node : Node :=
  {| nid := 1; ntype := RQuery; nmeta := [("type", VStr "city")] |}.

(** Stand-ins for the two texts [add_nodes] is given. *)
Definition sample_float_text (q : Q) : string := "0.5".

Definition sample_filler_text : string :=
  "<fornax.api.NullValue object at 0x7f3a5c0d2e50>".


Definition uneven_columns : list (string * list pyval) :=
  [ ("id_src", [VInt 5]); ("name", [VStr "f"; VStr "g"]) ].

(** A target graph 1 .. 4 that stores the single edge 1 - 4, and an
    optimiser's array that lists 1 - 2 and 3 - 4 as neighbours. *)
Definition crossed_store : store :=
  {| graphs := [0; 1];
     nodes :=
       [ {| node_id := 1; n_graph_id := 1; n_meta := [] |};
         {| node_id := 2; n_graph_id := 1; n_meta := [] |};
         {| node_id := 3; n_graph_id := 1; n_meta := [] |};
         {| node_id := 4; n_graph_id := 1; n_meta := [] |} ];
     edges :=
       [ {| e_start := 1; e_end := 4; e_graph_id := 1; e_meta := [] |};
         {| e_start := 4; e_end := 1; e_graph_id := 1; e_meta := [] |} ];
     queries := [ {| q_query_id := 0; start_graph_id := 0; end_graph_id := 1 |} ];
     matches := [] |}.

Definition crossed_arr : list arr_row :=
  [ {| u := 1; uu := 2; dist_u := 1 |}; {| u := 3; uu := 4; dist_u := 1 |} ].

(** * The module *)

Section Api.

Variable P : platform.

(** ** Module constants and [_hash] *)

Definition sys_maxsize : Z :=
  match ssize P with
  | W32 => 2 ^ 31 - 1
  | W64 => 2 ^ 63 - 1
  end.

Definition DB_URL : string :=
  match FORNAX_DB_URL P with
  | None => "sqlite://"
  | Some url => url
  end.

Definition SQLITE_MAX_SIZE : Z := 2147483647.

Definition MAX_SIZE : Z :=
  if String.eqb DB_URL "sqlite://"
  then Z.min sys_maxsize SQLITE_MAX_SIZE
  else sys_maxsize.

Definition sha256_int (s : string) : Z :=
  SHA256.digest_int (bytes_of_string s).

Definition _hash (item : pykey) : Z :=
  match item with
  | KInt z => z mod MAX_SIZE
  | _ => sha256_int (str item) mod MAX_SIZE
  end.

(** The builtins [int] and [float] on a field value. *)
Definition Qtrunc (q : Q) : Z := Z.quot (Qnum q) (Zpos (Qden q)).

Definition py_int (v : pyval) : result Z :=
  match v with
  | VInt z => Ok z
  | VFloat q => Ok (Qtrunc q)
  | VBool b => Ok (if b then 1 else 0)
  | VStr s =>
      match int_of_string P s with
      | Some z => Ok z
      | None => Raise (ValueError "invalid literal for int() with base 10")
      end
  | VNone | VNullValue =>
      Raise (TypeError "int() argument must be a string, a bytes-like object or a real number")
  end.

(** [float v]: [Ok None] stands for an infinity or a NaN, which every
    comparison with a finite bound used below treats as out of range. *)
Definition py_float (v : pyval) : result (option Q) :=
  match v with
  | VInt z => Ok (Some (inject_Z z))
  | VFloat q => Ok (Some q)
  | VBool b => Ok (Some (if b then 1%Q else 0%Q))
  | VStr s =>
      match float_of_string P s with
      | Some f => Ok f
      | None => Raise (ValueError "could not convert string to float")
      end
  | VNone | VNullValue =>
      Raise (TypeError "float() argument must be a string or a real number")
  end.


(** ** Ingestion guards *)

Definition check_edge (edge : model_edge) : result model_edge :=
  match py_int (me_start edge), py_int (me_end edge) with
  | Raise (ValueError _), _ | Ok _, Raise (ValueError _) =>
      Raise (InvalidEdgeError "edge start and end must be integers")
  | Raise e, _ | Ok _, Raise e => Raise e
  | Ok start, Ok end_ =>
      if start =? end_
      then Raise (InvalidEdgeError "edges must start and end on different nodes")
      else Ok edge
  end.

Definition check_edges (edges : list model_edge) : result (list model_edge) :=
  mapM check_edge edges.

Definition check_match (m : model_match) : result model_match :=
  match py_int (m_start m) with
  | Raise (ValueError _) =>
      Raise (ValueError "<Match(start={}, end={}, weight={})>, match start must be int")
  | Raise e => Raise e
  | Ok _ =>
  match py_int (m_end m) with
  | Raise (ValueError _) =>
      Raise (ValueError "<Match(start={}, end={}, weight={})>, match end must be int")
  | Raise e => Raise e
  | Ok _ =>
  match py_float (m_weight m) with
  | Raise (ValueError _) =>
      Raise (ValueError
        "<Match(start={}, end={}, weight={})>,                 match weight must be number")
  | Raise e => Raise e
  | Ok w =>
      let in_range :=
        match w with
        | Some q => Qltb 0 q && Qle_bool q 1
        | None => false
        end in
      if in_range then Ok m
      else Raise (ValueError
        "<Match(start={}, end={}, weight={})>,                 bounds error: 0 < weight <= 1")
  end end end.

Definition check_matches (ms : list model_match) : result (list model_match) :=
  mapM check_match ms.


(** ** Serialisation of [Node] and [Edge] *)

Definition Node_to_dict (n : Node) : pydict :=
  dict_merge
    [ ("id", VInt (_hash (KTuple [KInt (nid n); KStr (role_name (ntype n))])));
      ("type", VStr (role_name (ntype n))) ]
    (nmeta n).

Definition Edge_to_dict (e : Edge) : result pydict :=
  let '(s, t) :=
    match etype e with
    | RQuery | RTarget =>
        (_hash (KTuple [KInt (start e); KStr (role_name (etype e))]),
         _hash (KTuple [KInt (end_ e); KStr (role_name (etype e))]))
    | RMatch =>
        (_hash (KTuple [KInt (start e); KStr "query"]),
         _hash (KTuple [KInt (end_ e); KStr "target"]))
    end in
  match emeta e with
  | None => Raise (TypeError "'NoneType' object is not a mapping")
  | Some meta =>
      Ok (dict_merge
            [ ("source", VInt s); ("target", VInt t);
              ("type", VStr (role_name (etype e)));
              ("weight", VFloat (weight e)) ]
            meta)
  end.

(** ** [GraphHandle.add_edges] *)

Definition mem_string (k : string) (l : list string) : bool :=
  existsb (String.eqb k) l.

(** The text of the source continues over a line break, whose
    indentation is left out here. *)
Definition reserved (k : string) : exn :=
  ValueError (k ++ " is a reserved node attribute which cannot be assigned using kwargs").

(** The four guards on keyword names shared by [add_edges] and
    [add_matches]. *)
Definition check_reserved (keys : list string) : result unit :=
  if mem_string "start" keys then Raise (reserved "start")
  else if mem_string "end" keys then Raise (reserved "end")
  else if mem_string "type" keys then Raise (reserved "type")
  else if mem_string "weight" keys then Raise (reserved "weight")
  else Ok tt.

Definition hashed (ids : list pykey) : list pyval :=
  map (fun k => VInt (_hash k)) ids.

(** One step of the generator of [add_edges]: both directions are
    built for a zipped row, then each is checked in turn. *)
Definition edge_pair (graph_id : Z) (keys : list string) (row : list pyval)
  : result (list model_edge) :=
  match row with
  | s :: e :: values =>
      rbind (json_dumps (dict_of_zip keys values)) (fun meta =>
      check_edges
        [ {| me_start := s; me_end := e; me_graph_id := graph_id; me_meta := meta |};
          {| me_start := e; me_end := s; me_graph_id := graph_id; me_meta := meta |} ])
  | _ => Ok []
  end.

(** The value an Integer column keeps for a checked field. *)
Definition column_int (v : pyval) : Z :=
  match py_int v with
  | Ok z => z
  | Raise _ => 0
  end.

Definition insert_edge (e : model_edge) : edge_row :=
  {| e_start := column_int (me_start e); e_end := column_int (me_end e);
     e_graph_id := me_graph_id e; e_meta := me_meta e |}.

Definition add_all_edges (rows : list model_edge) (s : store) : store :=
  {| graphs := graphs s; nodes := nodes s;
     edges := edges s ++ map insert_edge rows;
     queries := queries s; matches := matches s |}.

Definition add_edges (graph_id : Z) (sources targets : list pykey)
    (kwargs : list (string * list pyval)) : M unit :=
  let keys := map fst kwargs in
  lift (check_reserved keys) ;;;
  let zipped := zip_longest (hashed sources :: hashed targets :: map snd kwargs) in
  session_scope (fun s =>
    rbind (mapM (edge_pair graph_id keys) zipped) (fun pairs =>
    Ok (add_all_edges (List.concat pairs) s))).


(** ** The optimiser's interface *)

(** [fornax.select.join] and [fornax.opt.solve] are the two other
    modules of the package.  The query module only passes the rows of
    the first to the second and unpacks five results, so both are taken
    as they are called: the join reads the database, the solver is
    given the rows and the two tuning parameters. *)
Variable record : Type.
Variable select_join : store -> Z -> Z -> list record.
Variable solve : list record -> Z -> Z -> result solution.

(** ** [QueryHandle] *)

Definition pair_eqb (a b : Z * Z) : bool :=
  (fst a =? fst b) && (snd a =? snd b).

(** [inference_costs[k]] *)
Fixpoint costs_get (k : Z * Z) (d : list ((Z * Z) * Q)) : result Q :=
  match d with
  | [] => Raise (KeyError k)
  | (k', c) :: d' => if pair_eqb k k' then Ok c else costs_get k d'
  end.

Definition query_exists (query_id : Z) (s : store) : bool :=
  existsb (fun q => q_query_id q =? query_id) (queries s).

Definition _check_exists (query_id : Z) : M unit :=
  exists_ <- read (query_exists query_id) ;;
  if exists_ : bool then ret tt
  else raise (ValueError ("cannot read query with query id " ++ str_of_Z query_id)).

Definition count_matches (query_id : Z) (s : store) : Z :=
  Z.of_nat (List.length
    (filter (fun m => m_query_id m =? query_id) (matches s))).

Definition __len__ (query_id : Z) : M Z :=
  _check_exists query_id ;;;
  read (count_matches query_id).

(** The rows of the query itself, on which the reads below join. *)
Definition query_rows (query_id : Z) (s : store) : list query_row :=
  filter (fun q => q_query_id q =? query_id) (queries s).

(** The three selections below are the SQL of the methods of the same
    name, read off the session calls: a join of the table with the
    query row, filtered. *)
Definition select_query_nodes (query_id : Z) (s : store) : list Node :=
  flat_map (fun q =>
    map (fun n => {| nid := node_id n; ntype := RQuery; nmeta := n_meta n |})
      (filter (fun n => n_graph_id n =? start_graph_id q) (nodes s)))
    (query_rows query_id s).

Definition _query_nodes (query_id : Z) : M (list Node) :=
  read (select_query_nodes query_id).

Definition select_query_edges (query_id : Z) (s : store) : list Edge :=
  flat_map (fun q =>
    map (fun e => mkEdge (e_start e) (e_end e) RQuery (Some (e_meta e)))
      (filter (fun e => (e_graph_id e =? start_graph_id q)
                        && (e_start e <? e_end e)) (edges s)))
    (query_rows query_id s).

Definition _query_edges (query_id : Z) : M (list Edge) :=
  read (select_query_edges query_id).

Definition select_target_nodes (query_id : Z) (s : store) : list Node :=
  flat_map (fun q =>
    map (fun n => {| nid := node_id n; ntype := RTarget; nmeta := n_meta n |})
      (filter (fun n => n_graph_id n =? end_graph_id q) (nodes s)))
    (query_rows query_id s).

Definition _target_nodes (query_id : Z) : M (list Node) :=
  read (select_target_nodes query_id).

Definition mem_Z (z : Z) (l : list Z) : bool := existsb (Z.eqb z) l.

Definition is_between (target_ids : list Z) (edge : Edge) : bool :=
  mem_Z (start edge) target_ids && mem_Z (end_ edge) target_ids.

Definition pyval_eq_dec (a b : pyval) : {a = b} + {a <> b}.
Proof.
  decide equality; try apply Z.eq_dec; try apply string_dec; try apply bool_dec.
  destruct q as [n1 d1], q0 as [n2 d2].
  destruct (Z.eq_dec n1 n2); [ | right; congruence ].
  destruct (Pos.eq_dec d1 d2); [ left | right ]; congruence.
Defined.

Definition edge_row_eq_dec (a b : edge_row) : {a = b} + {a <> b}.
Proof.
  decide equality; try apply Z.eq_dec.
  apply list_eq_dec. decide equality; [ apply pyval_eq_dec | apply string_dec ].
Defined.

(** The scratch edges of [_target_edges]: the rows of the optimiser's
    array below the cutoff, kept when both ends are target nodes. *)
Definition scratch_edges (target_nodes : list Node) (arr : list arr_row)
  : list Edge :=
  let target_ids := map nid target_nodes in
  let edges_ :=
    map (fun r => mkEdge (u r) (uu r) RTarget None)
      (filter (fun r => dist_u r <? 2) arr) in
  filter (is_between target_ids) edges_.

(** The SQL of [_target_edges]: the target graph's rows whose start is
    one of [starts] and whose end is one of [ends], one direction only,
    without repeated rows. *)
Definition select_target_edges (query_id : Z) (starts ends : list Z)
    (s : store) : list Edge :=
  map (fun e => mkEdge (e_start e) (e_end e) RTarget (Some (e_meta e)))
    (nodup edge_row_eq_dec
      (flat_map (fun q =>
         filter (fun e => (e_graph_id e =? end_graph_id q)
                          && mem_Z (e_start e) starts
                          && mem_Z (e_end e) ends
                          && (e_start e <? e_end e)) (edges s))
         (query_rows query_id s))).

Definition _target_edges (query_id : Z) (target_nodes : list Node)
    (arr : list arr_row) : M (list Edge) :=
  let edges_ := scratch_edges target_nodes arr in
  let starts := map (fun e => Z.min (start e) (end_ e)) edges_ in
  let ends := map (fun e => Z.max (start e) (end_ e)) edges_ in
  read (select_target_edges query_id starts ends).

Definition _optimise (query_id hopping_distance max_iters : Z) : M solution :=
  emit (EvJoin query_id hopping_distance) ;;;
  records <- read (fun s => select_join s query_id hopping_distance) ;;
  emit (EvSolve hopping_distance max_iters) ;;;
  lift (solve records hopping_distance max_iters).

(** [sum(inference_costs[k] for k in subgraph)]: the additions run
    from 0 in the order of the subgraph. *)
Definition sum_costs (costs : list ((Z * Z) * Q)) (subgraph : list (Z * Z))
  : result Q :=
  rbind (mapM (fun k => costs_get k costs) subgraph) (fun cs =>
  Ok (fold_left Qplus cs 0%Q)).

Definition len {A : Type} (l : list A) : Z := Z.of_nat (List.length l).

Definition _get_scores (costs : list ((Z * Z) * Q)) (query_nodes : list Node)
    (sgs : list (list (Z * Z))) (size : Q) : result (list Q) :=
  mapM (fun subgraph =>
    rbind (sum_costs costs subgraph) (fun score =>
    let score := (score + (size - inject_Z (len subgraph)))%Q in
    if len query_nodes =? 0 then Raise ZeroDivisionError
    else Ok (score / inject_Z (len query_nodes))%Q)) sgs.


(** [query_graph] and [target_graph]: the first graph row joined to the
    query by the given column; [None.graph_id] raises. *)
Definition joined_graph (col : query_row -> Z) (query_id : Z) : M Z :=
  _check_exists query_id ;;;
  g <- read (fun s =>
         find (fun g => existsb (fun q => g =? col q) (query_rows query_id s))
              (graphs s)) ;;
  match g with
  | Some graph_id => ret graph_id
  | None => raise (AttributeError "'NoneType' object has no attribute 'graph_id'")
  end.

Definition query_graph : Z -> M Z := joined_graph start_graph_id.
Definition target_graph : Z -> M Z := joined_graph end_graph_id.

(** One step of the generator of [add_matches]: the row is built, then
    checked. *)
Definition match_of_row (query_id qg tg : Z) (keys : list string)
    (row : list pyval) : result (list model_match) :=
  match row with
  | s :: e :: w :: values =>
      rbind (json_dumps (dict_of_zip keys values)) (fun meta =>
      check_matches
        [ {| m_start := s; m_end := e; m_start_graph_id := qg;
             m_end_graph_id := tg; m_query_id := query_id;
             m_weight := w; m_meta := meta |} ])
  | _ => Ok []
  end.

Definition add_all_matches (rows : list model_match) (s : store) : store :=
  {| graphs := graphs s; nodes := nodes s; edges := edges s;
     queries := queries s; matches := matches s ++ rows |}.

Definition add_matches (query_id : Z) (sources targets : list pykey)
    (weights : list pyval) (kwargs : list (string * list pyval)) : M unit :=
  _check_exists query_id ;;;
  let keys := map fst kwargs in
  lift (check_reserved keys) ;;;
  let zipped :=
    zip_longest (hashed sources :: hashed targets :: weights :: map snd kwargs) in
  qg <- query_graph query_id ;;
  tg <- target_graph query_id ;;
  session_scope (fun s =>
    rbind (mapM (match_of_row query_id qg tg keys) zipped) (fun rows =>
    Ok (add_all_matches (List.concat rows) s))).

(** ** [QueryHandle.execute] *)

(** [l[:k]]: a negative bound counts from the end. *)
Definition slice_to {A : Type} (k : Z) (l : list A) : list A :=
  if 0 <=? k then firstn (Z.to_nat k) l
  else firstn (Z.to_nat (len l + k)) l.

Definition enumerate {A : Type} (l : list A) : list (nat * A) :=
  combine (seq 0 (List.length l)) l.

(** [tuple(subgraph)] as a key: a tuple of pairs of integers. *)
Definition subgraph_key (subgraph : list (Z * Z)) : pykey :=
  KTuple (map (fun st => KTuple [KInt (fst st); KInt (snd st)]) subgraph).

(** Tuples [(score, hash)] compared left to right. *)
Definition key_lt (a b : Q * Z) : bool :=
  if Qeq_bool (fst a) (fst b) then snd a <? snd b else Qltb (fst a) (fst b).

Definition rank_key (sgs : list (list (Z * Z))) (x : nat * Q) : Q * Z :=
  (snd x, _hash (subgraph_key (nth (fst x) sgs []))).

Definition rank (sgs : list (list (Z * Z))) (scores : list Q) : list (nat * Q) :=
  sorted (fun x y => key_lt (rank_key sgs x) (rank_key sgs y)) (enumerate scores).

Definition pair_lt (a b : Z * Z) : bool :=
  if fst a =? fst b then snd a <? snd b else fst a <? fst b.

(** [v in ends] for a set of integers: an integer, or a number equal
    to one. *)
Definition py_in_ints (v : option pyval) (ends : list Z) : bool :=
  match v with
  | Some (VInt z) => mem_Z z ends
  | Some (VBool b) => mem_Z (if b then 1 else 0) ends
  | Some (VFloat q) =>
      (Zpos (Qden (Qred q)) =? 1) && mem_Z (Qnum (Qred q)) ends
  | _ => false
  end.

Definition match_edge (costs : list ((Z * Z) * Q)) (st : Z * Z) : result pydict :=
  rbind (costs_get st costs) (fun c =>
  Edge_to_dict {| start := fst st; end_ := snd st; etype := RMatch;
                  emeta := Some []; weight := (1 - c)%Q |}).

(** The conditions of the two comprehensions that pick target nodes
    and target edges for a result graph. *)
Definition is_match_end (match_ends : list Z) (n : pydict) : bool :=
  py_in_ints (dict_get "id" n) match_ends.

Definition joins_match_ends (match_ends : list Z) (e : pydict) : bool :=
  py_in_ints (dict_get "source" e) match_ends
  && py_in_ints (dict_get "target" e) match_ends.

(** [set(_hash((i, 'target')) for i in match_ends)], used for
    membership only. *)
Definition hashed_ends (match_ends : list Z) : list Z :=
  map (fun i => _hash (KTuple [KInt i; KStr "target"])) match_ends.

(** The body of the loop over the selected subgraphs. *)
Definition assemble (sol : solution)
    (query_nodes_payload query_edges_payload
     target_nodes_payload target_edges_payload : list pydict)
    (x : nat * Q) : result graph :=
  let subgraph := nth (fst x) (subgraphs sol) [] in
  rbind (match subgraph with
         | [] => Raise (ValueError "not enough values to unpack (expected 2, got 0)")
         | _ => Ok (map snd subgraph)
         end) (fun match_ends =>
  rbind (mapM (match_edge (inference_costs sol)) (sorted pair_lt subgraph))
        (fun matches_ =>
  let match_ends := hashed_ends match_ends in
  Ok {| is_multigraph := false;
        cost := snd x;
        g_nodes :=
          query_nodes_payload
          ++ filter (is_match_end match_ends) target_nodes_payload;
        links :=
          (matches_ ++ query_edges_payload)
          ++ filter (joins_match_ends match_ends) target_edges_payload |})).

Definition execute (query_id n hopping_distance max_iters : Z) : M query_result :=
  _check_exists query_id ;;;
  count <- __len__ query_id ;;
  if count =? 0 then raise (ValueError "Cannot execute query with no matches")
  else
    qn <- _query_nodes query_id ;;
    let query_nodes := sorted Node_lt qn in
    tn <- _target_nodes query_id ;;
    let target_nodes := sorted Node_lt tn in
    qe <- _query_edges query_id ;;
    let query_edges := sorted Edge_lt qe in
    sol <- _optimise query_id hopping_distance max_iters ;;
    te <- _target_edges query_id target_nodes (target_edges_arr sol) ;;
    let target_edges := sorted Edge_lt te in
    scores <- lift (_get_scores (inference_costs sol) query_nodes
                      (subgraphs sol) (sz sol)) ;;
    let idxs := rank (subgraphs sol) scores in
    let query_nodes_payload := map Node_to_dict query_nodes in
    query_edges_payload <- lift (mapM Edge_to_dict query_edges) ;;
    let target_nodes_payload := map Node_to_dict target_nodes in
    target_edges_payload <- lift (mapM Edge_to_dict target_edges) ;;
    graphs_ <- lift (mapM (assemble sol query_nodes_payload query_edges_payload
                             target_nodes_payload target_edges_payload)
                       (slice_to (Z.min n (len idxs)) idxs)) ;;
    ret {| r_graphs := graphs_; r_iters := iters sol;
           r_hopping_distance := hopping_distance;
           r_max_iters := max_iters |}.


(** ** [GraphHandle]: create, read, delete *)

Definition graph_exists (graph_id : Z) (s : store) : bool :=
  existsb (fun g => g =? graph_id) (graphs s).

Definition GraphHandle__check_exists (graph_id : Z) : M unit :=
  exists_ <- read (graph_exists graph_id) ;;
  if exists_ : bool then ret tt
  else raise (ValueError ("cannot read graph with graph id: " ++ str_of_Z graph_id)).

(** [GraphHandle(graph_id)]: the handle is its identifier, once the
    graph has been found. *)
Definition GraphHandle (graph_id : Z) : M Z :=
  GraphHandle__check_exists graph_id ;;; ret graph_id.

Definition GraphHandle_read : Z -> M Z := GraphHandle.

(** [GraphHandle.__len__] counts the nodes and does not look for the
    graph. *)
Definition GraphHandle___len__ (graph_id : Z) : M Z :=
  read (fun s => len (filter (fun n => n_graph_id n =? graph_id) (nodes s))).

(** [func.max] of a column, [None] on an empty table, and the
    identifier the two [create] methods draw from it. *)
Definition sql_max (column : list Z) : option Z :=
  match column with
  | [] => None
  | x :: rest => Some (fold_left Z.max rest x)
  end.

Definition next_id (column : list Z) : Z :=
  match sql_max column with
  | None => 0
  | Some m => m + 1
  end.

Definition GraphHandle_create : M Z :=
  graph_id <- read (fun s => next_id (graphs s)) ;;
  session_scope (fun s =>
    Ok {| graphs := graphs s ++ [graph_id]; nodes := nodes s;
          edges := edges s; queries := queries s; matches := matches s |}) ;;;
  GraphHandle graph_id.

Definition GraphHandle_delete (graph_id : Z) : M unit :=
  GraphHandle__check_exists graph_id ;;;
  session_scope (fun s =>
    Ok {| graphs := filter (fun g => negb (g =? graph_id)) (graphs s);
          nodes := filter (fun n => negb (n_graph_id n =? graph_id)) (nodes s);
          edges := filter (fun e => negb (e_graph_id e =? graph_id)) (edges s);
          queries := queries s; matches := matches s |}).

(** ** [QueryHandle]: create, read, delete *)





(** ** [check_nodes] and [GraphHandle.add_nodes] *)

(** The two messages open with the text of the row, which
    [fornax.model] defines; it is left out. *)
Definition check_node (node : model_node) : node_result model_node :=
  match py_int (mn_node_id node) with
  | Raise (ValueError _) => Refused (InvalidNodeError "node_id must be an integer")
  | Raise e => Refused (Uncaught e)
  | Ok node_id =>
      if (SQLITE_MAX_SIZE <? node_id) && String.eqb DB_URL "sqlite://"
      then Refused (InvalidNodeError "node id is too large")
      else Checked node
  end.

Definition check_nodes (nodes_ : list model_node)
  : node_result (list model_node) :=
  node_mapM check_node nodes_.

Definition insert_node (n : model_node) : node_row :=
  {| node_id := column_int (mn_node_id n); n_graph_id := mn_graph_id n;
     n_meta := mn_meta n |}.

Definition add_all_nodes (rows : list model_node) (s : store) : store :=
  {| graphs := graphs s; nodes := nodes s ++ map insert_node rows;
     edges := edges s; queries := queries s; matches := matches s |}.

(** [kwargs.get(key)] on the keyword columns; a column is a list, so
    the lookup is [None] only for a keyword that was not given. *)
Definition kwargs_get (key : string) (kwargs : list (string * list pyval))
  : option (list pyval) :=
  option_map snd (find (fun kv => String.eqb (fst kv) key) kwargs).

Section AddNodes.

(** [_hash] reads an identifier that is not an integer through its
    [str].  Two of these texts are taken as they come: that of a float,
    which is Python's shortest notation that reads back to it, and that
    of the filler object, which names its address. *)
Variable str_of_float : Q -> string.
Variable str_of_NullValue : string.

(** A field value as [_hash] sees it; a [bool] is an [int] to
    [isinstance]. *)
Definition hashable (v : pyval) : pykey :=
  match v with
  | VInt z => KInt z
  | VBool b => KInt (if b then 1 else 0)
  | VStr s => KStr s
  | VNone => KStr "None"
  | VFloat q => KStr (str_of_float q)
  | VNullValue => KStr str_of_NullValue
  end.

(** [zip_longest(id_src, zipped, fillvalue=NullValue())]: on the side
    of the rows the filler is [None] here. *)
Definition zip_ids (id_src : list pyval) (rows : list (list pyval))
  : list (pyval * option (list pyval)) :=
  map (fun i => (nth i id_src VNullValue, nth_error rows i))
    (seq 0 (Nat.max (List.length id_src) (List.length rows))).

(** One step of the generators of [add_nodes]: the node is built,
    which hashes its identifier and serialises its metadata, then
    checked. *)
Definition node_of (graph_id : Z) (keys : list string)
    (item : pykey * option (list pyval)) : node_result model_node :=
  let node_id := _hash (fst item) in
  match snd item with
  | None => Refused (Uncaught (TypeError "'NullValue' object is not iterable"))
  | Some values =>
      match json_dumps (dict_of_zip keys values) with
      | Raise e => Refused (Uncaught e)
      | Ok meta =>
          check_node {| mn_node_id := VInt node_id; mn_graph_id := graph_id;
                        mn_meta := meta |}
      end
  end.

(** The rows are added in one session, which commits them together or
    not at all. *)
Definition add_nodes (graph_id : Z) (kwargs : list (string * list pyval))
  : world -> node_result unit * world :=
  fun w =>
    let keys := map fst kwargs in
    if len keys =? 0
    then (Refused (Uncaught (ValueError
            "add_nodes requires at least one keyword argument")), w)
    else if mem_string "id" keys
    then (Refused (Uncaught (ValueError
            "id is a reserved node attribute             which cannot be assigned")), w)
    else
      let rows := zip_longest (map snd kwargs) in
      let zipped :=
        match kwargs_get "id_src" kwargs with
        | Some id_src =>
            map (fun x => (hashable (fst x), snd x)) (zip_ids id_src rows)
        | None =>
            map (fun x => (KInt (Z.of_nat (fst x)), Some (snd x)))
              (enumerate rows)
        end in
      match node_mapM (node_of graph_id keys) zipped with
      | Refused e => (Refused e, w)
      | Checked nodes_ =>
          (Checked tt,
           {| db := add_all_nodes nodes_ (db w); calls := calls w |})
      end.

End AddNodes.

(** * Names used in the statements *)

(** The four sorted lists [execute] works on, for a store and the
    array of the solver. *)
Definition query_nodes_of (query_id : Z) (s : store) : list Node :=
  sorted Node_lt (select_query_nodes query_id s).

Definition target_nodes_of (query_id : Z) (s : store) : list Node :=
  sorted Node_lt (select_target_nodes query_id s).

Definition query_edges_of (query_id : Z) (s : store) : list Edge :=
  sorted Edge_lt (select_query_edges query_id s).

Definition target_edges_of (query_id : Z) (s : store) (arr : list arr_row)
  : list Edge :=
  let edges_ := scratch_edges (target_nodes_of query_id s) arr in
  sorted Edge_lt
    (select_target_edges query_id
       (map (fun e => Z.min (start e) (end_ e)) edges_)
       (map (fun e => Z.max (start e) (end_ e)) edges_) s).

(** The world after the optimiser has run: same database, the two
    calls logged. *)
Definition after_optimise (query_id h max_iters : Z) (w : world) : world :=
  {| db := db w; calls := calls w ++ [EvJoin query_id h] ++ [EvSolve h max_iters] |}.


Definition inference_cost (costs : list ((Z * Z) * Q)) (k : Z * Z) : Q :=
  match costs_get k costs with
  | Ok c => c
  | Raise _ => 0
  end.


(** The order [sorted] produces, for a comparison [lt] and a relation
    [E] that says which of two elements came first in the input:
    smaller first, and of two elements neither of which is smaller, the
    earlier first. *)
Definition stable_before {A : Type} (lt : A -> A -> bool) (E : A -> A -> Prop)
    (x y : A) : Prop :=
  lt x y = true \/ (lt y x = false /\ E x y).




(** The dictionary of a match edge between query node [fst st] and
    target node [snd st] with the given weight. *)
Definition match_payload (st : Z * Z) (wt : Q) : pydict :=
  [ ("source", VInt (_hash (KTuple [KInt (fst st); KStr "query"])));
    ("target", VInt (_hash (KTuple [KInt (snd st); KStr "target"])));
    ("type", VStr "match");
    ("weight", VFloat wt) ].

(** Modelled from the spec: the optimiser [fornax.opt.solve] is not
    among the sources at hand.  The design document binds it to keep
    every inference cost finite and non-negative and every match weight
    [1 - cost] within [0, 1]; on rational costs that is the bound
    below, for every entry of the cost table it returns. *)
Definition costs_bounded (sol : solution) : Prop :=
  forall k c, In (k, c) (inference_costs sol) -> (0 <= c <= 1)%Q.



(** What [check_matches] asks of a match: both ends coerce to an
    integer and the weight coerces to a finite number of (0, 1]. *)
Definition match_accepted (m : model_match) : Prop :=
  (exists s, py_int (m_start m) = Ok s)
  /\ (exists e, py_int (m_end m) = Ok e)
  /\ (exists q, py_float (m_weight m) = Ok (Some q) /\ (0 < q <= 1)%Q).

Definition is_rejection (e : exn) : Prop :=
  match e with
  | ValueError _ | TypeError _ => True
  | _ => False
  end.





(** The keys of the tables: the schema itself is declared in
    [fornax.model], outside this module, so it enters the statements as
    an assumption on the store: one row per edge of a graph and per
    query identifier. *)
Definition edge_key (e : edge_row) : Z * Z * Z :=
  (e_graph_id e, e_start e, e_end e).

Definition keyed (s : store) : Prop :=
  NoDup (map edge_key (edges s)) /\ NoDup (map q_query_id (queries s)).


(** The scratch edges [_target_edges] would keep if its cutoff were a
    radius [h] instead of the constant of the source. *)
Definition scratch_edges_within (h : Z) (target_nodes : list Node)
    (arr : list arr_row) : list Edge :=
  filter (is_between (map nid target_nodes))
    (map (fun r => mkEdge (u r) (uu r) RTarget None)
       (filter (fun r => dist_u r <? h) arr)).

(** The outcome of [execute] once the guard on matches is passed, as a
    function of the database: each step that can raise ends the
    chain. *)
Definition execute_outcome (query_id n h max_iters : Z) (s : store)
  : result query_result :=
  rbind (solve (select_join s query_id h) h max_iters) (fun sol =>
  rbind (_get_scores (inference_costs sol) (query_nodes_of query_id s)
           (subgraphs sol) (sz sol)) (fun scores =>
  rbind (mapM Edge_to_dict (query_edges_of query_id s)) (fun qep =>
  rbind (mapM Edge_to_dict
           (target_edges_of query_id s (target_edges_arr sol))) (fun tep =>
  rbind (mapM (assemble sol
                 (map Node_to_dict (query_nodes_of query_id s)) qep
                 (map Node_to_dict (target_nodes_of query_id s)) tep)
           (slice_to (Z.min n (len (rank (subgraphs sol) scores)))
              (rank (subgraphs sol) scores))) (fun graphs_ =>
  Ok {| r_graphs := graphs_; r_iters := iters sol;
        r_hopping_distance := h; r_max_iters := max_iters |}))))).

(** One row per node of a graph, the key of the table of nodes. *)
Definition node_key (n : node_row) : Z * Z := (n_graph_id n, node_id n).

(** [Edge.__lt__] between two edges of the same type: the ends decide. *)
Definition Edge_lt_ends (a b : Edge) : bool :=
  if start a =? start b then end_ a <? end_ b else start a <? start b.

(** What [check_nodes] and [check_edges] ask of a row: the identifier
    of a node coerces to an integer, within the bound of SQLite when
    that is the backend; the two ends of an edge coerce to different
    integers. *)
Definition node_accepted (n : model_node) : Prop :=
  exists z, py_int (mn_node_id n) = Ok z
            /\ (DB_URL = "sqlite://" -> z <= SQLITE_MAX_SIZE).

Definition edge_accepted (e : model_edge) : Prop :=
  exists a b, py_int (me_start e) = Ok a /\ py_int (me_end e) = Ok b
              /\ a <> b.

(** * Properties *)

(** ** Exceptions and loops *)

Lemma rbind_Ok_inv {A B : Type} (r : result A) (k : A -> result B) (b : B) :
  rbind r k = Ok b -> exists a, r = Ok a /\ k a = Ok b.
Proof.
  destruct r as [a | e]; simpl; intros H.
  - exists a. split; [ reflexivity | exact H ].
  - discriminate H.
Qed.

Lemma mapM_Ok_Forall2 {A B : Type} (f : A -> result B) (l : list A) (l' : list B) :
  mapM f l = Ok l' <-> Forall2 (fun x y => f x = Ok y) l l'.
Proof.
  revert l'. induction l as [ | x l IH ]; intros l'; simpl.
  - split; intros H.
    + injection H as <-. constructor.
    + inversion H. reflexivity.
  - split; intros H.
    + apply rbind_Ok_inv in H as [y [Hy H]].
      apply rbind_Ok_inv in H as [ys [Hys H]].
      injection H as <-. constructor; [ exact Hy | apply IH; exact Hys ].
    + inversion H as [ | ? y ? ys Hy Hys ]; subst.
      rewrite Hy. simpl. apply IH in Hys. rewrite Hys. reflexivity.
Qed.

Lemma mapM_total {A B : Type} (f : A -> result B) (g : A -> B) (l : list A) :
  (forall x, In x l -> f x = Ok (g x)) -> mapM f l = Ok (map g l).
Proof.
  induction l as [ | x l IH ]; intros H; simpl.
  - reflexivity.
  - rewrite (H x (or_introl eq_refl)). simpl.
    rewrite IH by (intros y Hy; apply H; right; exact Hy). reflexivity.
Qed.

Lemma mapM_Raise {A B : Type} (f : A -> result B) (l : list A) :
  Exists (fun x => exists e, f x = Raise e) l -> exists e, mapM f l = Raise e.
Proof.
  induction 1 as [ x l [e He] | x l _ [e IH] ]; simpl.
  - rewrite He. exists e. reflexivity.
  - destruct (f x) as [y | e']; simpl.
    + rewrite IH. exists e. reflexivity.
    + exists e'. reflexivity.
Qed.

Lemma bind_Ok_inv {A B : Type} (m : M A) (k : A -> M B) (w w' : world) (b : B) :
  bind m k w = (Ok b, w') ->
  exists a w1, m w = (Ok a, w1) /\ k a w1 = (Ok b, w').
Proof.
  unfold bind. destruct (m w) as [[a | e] w1]; intros H.
  - exists a, w1. split; [ reflexivity | exact H ].
  - discriminate H.
Qed.

(** ** The hash *)

Lemma MAX_SIZE_pos : 0 < MAX_SIZE.
Proof.
  unfold MAX_SIZE, sys_maxsize, SQLITE_MAX_SIZE.
  destruct (String.eqb DB_URL "sqlite://"), (ssize P); reflexivity.
Qed.

(** C4. [_hash] maps every key to an integer of [0, MAX_SIZE);
    [MAX_SIZE] never exceeds the platform's [sys.maxsize] and, on the
    SQLite backend (the one whose integer width the module knows), is
    the smaller of [sys.maxsize] and [SQLITE_MAX_SIZE]; the value is a
    function of the key alone: an integer key is reduced as it is, and
    two other keys with the same display string hash alike. *)
Theorem _hash_range_and_determinism (item : pykey) :
  0 <= _hash item < MAX_SIZE
  /\ MAX_SIZE <= sys_maxsize
  /\ (DB_URL = "sqlite://" -> MAX_SIZE = Z.min sys_maxsize SQLITE_MAX_SIZE)
  /\ (DB_URL <> "sqlite://" -> MAX_SIZE = sys_maxsize)
  /\ (forall z, item = KInt z -> _hash item = z mod MAX_SIZE)
  /\ (forall item',
        (forall z, item <> KInt z) -> (forall z, item' <> KInt z) ->
        str item = str item' -> _hash item = _hash item').
Proof.
  pose proof MAX_SIZE_pos as Hpos.
  split; [ | split; [ | split; [ | split; [ | split ] ] ] ].
  - destruct item; simpl; apply Z.mod_pos_bound; exact Hpos.
  - unfold MAX_SIZE. destruct (String.eqb DB_URL "sqlite://"); lia.
  - intros H. unfold MAX_SIZE. rewrite H. reflexivity.
  - intros H. unfold MAX_SIZE.
    destruct (String.eqb_spec DB_URL "sqlite://") as [E | _];
      [ contradiction | reflexivity ].
  - intros z ->. reflexivity.
  - intros item' Hi Hi' Hstr.
    destruct item as [z | s | l]; [ exfalso; apply (Hi z); reflexivity | | ];
      (destruct item' as [z' | s' | l'];
       [ exfalso; apply (Hi' z'); reflexivity | | ]);
      unfold _hash; rewrite Hstr; reflexivity.
Qed.

(** ** The precondition of [execute] *)

Lemma _check_exists_run (query_id : Z) (w : world) :
  _check_exists query_id w =
  if query_exists query_id (db w) then (Ok tt, w)
  else (Raise (ValueError ("cannot read query with query id " ++ str_of_Z query_id)), w).
Proof.
  unfold _check_exists, bind, read, ret, raise.
  destruct (query_exists query_id (db w)); reflexivity.
Qed.

Lemma __len___run (query_id : Z) (w : world) :
  __len__ query_id w =
  if query_exists query_id (db w) then (Ok (count_matches query_id (db w)), w)
  else (Raise (ValueError ("cannot read query with query id " ++ str_of_Z query_id)), w).
Proof.
  unfold __len__, bind. rewrite _check_exists_run.
  destruct (query_exists query_id (db w)); reflexivity.
Qed.

(** C1. On a query without matches [execute] raises a [ValueError]
    whatever [n], [hopping_distance] and [max_iters] are, it leaves the
    world as it found it, so neither the join nor the solver has been
    called, and when the query exists the error is the one the method
    documents. *)
Theorem execute_no_matches_raises (query_id n hopping_distance max_iters : Z)
    (w : world) :
  count_matches query_id (db w) = 0 ->
  exists msg,
    execute query_id n hopping_distance max_iters w = (Raise (ValueError msg), w)
    /\ calls (snd (execute query_id n hopping_distance max_iters w)) = calls w
    /\ (query_exists query_id (db w) = true ->
        msg = "Cannot execute query with no matches").
Proof.
  intros Hcount.
  assert (Hrun : exists msg,
             execute query_id n hopping_distance max_iters w
             = (Raise (ValueError msg), w)
             /\ (query_exists query_id (db w) = true ->
                 msg = "Cannot execute query with no matches")).
  { unfold execute. unfold bind at 1. rewrite _check_exists_run.
    destruct (query_exists query_id (db w)) eqn:Hex.
    - unfold bind at 1. rewrite __len___run, Hex, Hcount. cbn.
      eexists. split; [ reflexivity | intros _; reflexivity ].
    - eexists. split; [ reflexivity | intros H; discriminate H ]. }
  destruct Hrun as [msg [Hrun Hmsg]].
  exists msg. split; [ exact Hrun | ].
  split; [ rewrite Hrun; reflexivity | exact Hmsg ].
Qed.

(** ** A successful run of [execute], step by step *)

Lemma _optimise_run (query_id h max_iters : Z) (w : world) :
  _optimise query_id h max_iters w =
  (solve (select_join (db w) query_id h) h max_iters,
   after_optimise query_id h max_iters w).
Proof.
  unfold _optimise, bind, emit, read, lift, after_optimise. cbn.
  rewrite <- app_assoc. reflexivity.
Qed.

Ltac bind_step H a w1 Ha :=
  apply bind_Ok_inv in H; destruct H as (a & w1 & Ha & H).

Lemma execute_Ok_inv (query_id n h max_iters : Z) (w w' : world)
    (r : query_result) :
  execute query_id n h max_iters w = (Ok r, w') ->
  exists sol scores qep tep,
    query_exists query_id (db w) = true
    /\ count_matches query_id (db w) <> 0
    /\ solve (select_join (db w) query_id h) h max_iters = Ok sol
    /\ w' = after_optimise query_id h max_iters w
    /\ _get_scores (inference_costs sol) (query_nodes_of query_id (db w))
         (subgraphs sol) (sz sol) = Ok scores
    /\ mapM Edge_to_dict (query_edges_of query_id (db w)) = Ok qep
    /\ mapM Edge_to_dict
         (target_edges_of query_id (db w) (target_edges_arr sol)) = Ok tep
    /\ mapM (assemble sol
               (map Node_to_dict (query_nodes_of query_id (db w))) qep
               (map Node_to_dict (target_nodes_of query_id (db w))) tep)
         (slice_to (Z.min n (len (rank (subgraphs sol) scores)))
            (rank (subgraphs sol) scores)) = Ok (r_graphs r)
    /\ r_iters r = iters sol
    /\ r_hopping_distance r = h
    /\ r_max_iters r = max_iters.
Proof.
  intros H. unfold execute in H.
  bind_step H x w1 H1. rewrite _check_exists_run in H1.
  destruct (query_exists query_id (db w)) eqn:Hex; [ | discriminate H1 ].
  injection H1 as _ <-.
  bind_step H count w2 H2. rewrite __len___run, Hex in H2.
  injection H2 as <- <-.
  destruct (count_matches query_id (db w) =? 0) eqn:Hcount; [ discriminate H | ].
  apply Z.eqb_neq in Hcount.
  bind_step H qn w3 H3. injection H3 as <- <-.
  bind_step H tn w4 H4. injection H4 as <- <-.
  bind_step H qe w5 H5. injection H5 as <- <-.
  bind_step H sol w6 H6. rewrite _optimise_run in H6. injection H6 as Hsol <-.
  bind_step H te w7 H7. injection H7 as <- <-.
  bind_step H scores w8 H8. injection H8 as Hscores <-.
  bind_step H qep w9 H9. injection H9 as Hqep <-.
  bind_step H tep w10 H10. injection H10 as Htep <-.
  bind_step H gs w11 H11. injection H11 as Hgs <-.
  injection H as <- <-.
  exists sol, scores, qep, tep. cbn.
  repeat split; try assumption.
Qed.


(** ** Scores *)


Lemma sum_costs_defined (costs : list ((Z * Z) * Q)) (S : list (Z * Z)) :
  (forall k, In k S -> exists c, costs_get k costs = Ok c) ->
  sum_costs costs S = Ok (fold_left Qplus (map (inference_cost costs) S) 0%Q).
Proof.
  intros Hdef. unfold sum_costs.
  rewrite (mapM_total _ (inference_cost costs)); [ reflexivity | ].
  intros k Hk. destruct (Hdef k Hk) as [c Hc].
  unfold inference_cost. rewrite Hc. reflexivity.
Qed.

Lemma len_zero_nil {A : Type} (l : list A) : len l = 0 -> l = [].
Proof.
  unfold len. destruct l; [ reflexivity | simpl; lia ].
Qed.



(** ** [sorted] is a stable sort *)

Section SortedFacts.

Context {A : Type} (lt : A -> A -> bool).

Lemma insert_sorted_perm (x : A) (l : list A) :
  Permutation (insert_sorted lt x l) (x :: l).
Proof.
  induction l as [ | y l IH ]; simpl.
  - apply Permutation_refl.
  - destruct (lt y x).
    + apply perm_trans with (y :: x :: l).
      * apply perm_skip, IH.
      * apply perm_swap.
    + apply Permutation_refl.
Qed.

Lemma sorted_perm (l : list A) : Permutation (sorted lt l) l.
Proof.
  induction l as [ | x l IH ]; simpl.
  - apply perm_nil.
  - apply perm_trans with (x :: sorted lt l).
    + apply insert_sorted_perm.
    + apply perm_skip, IH.
Qed.

Lemma sorted_length (l : list A) : List.length (sorted lt l) = List.length l.
Proof. apply Permutation_length, sorted_perm. Qed.

Lemma sorted_In (x : A) (l : list A) : In x (sorted lt l) <-> In x l.
Proof.
  split; apply Permutation_in;
    [ apply sorted_perm | apply Permutation_sym, sorted_perm ].
Qed.

Hypothesis lt_cotrans :
  forall a b c, lt a c = true -> lt a b = true \/ lt b c = true.

Variable E : A -> A -> Prop.

Lemma insert_sorted_stable (x : A) (l : list A) :
  StronglySorted (stable_before lt E) l ->
  Forall (E x) l ->
  StronglySorted (stable_before lt E) (insert_sorted lt x l).
Proof.
  induction l as [ | y l IH ]; intros Hs Hx; simpl.
  - constructor; constructor.
  - inversion Hs as [ | ? ? Hs' Hy ]; subst.
    inversion Hx as [ | ? ? Hxy Hx' ]; subst.
    destruct (lt y x) eqn:Hyx.
    + constructor; [ apply IH; assumption | ].
      apply Forall_forall. intros z Hz.
      apply (Permutation_in _ (insert_sorted_perm x l)) in Hz.
      destruct Hz as [<- | Hz].
      * left. exact Hyx.
      * rewrite Forall_forall in Hy. apply Hy, Hz.
    + constructor; [ exact Hs | ].
      constructor; [ right; split; assumption | ].
      apply Forall_forall. intros z Hz.
      rewrite Forall_forall in Hy, Hx'.
      destruct (Hy z Hz) as [Hyz | [Hzy Eyz]].
      * destruct (lt_cotrans _ x _ Hyz) as [H | H];
          [ congruence | left; exact H ].
      * destruct (lt x z) eqn:Hxz; [ left; exact Hxz | ].
        right. split; [ | apply Hx', Hz ].
        destruct (lt z x) eqn:Hzx; [ | reflexivity ].
        destruct (lt_cotrans _ y _ Hzx) as [H | H]; congruence.
Qed.

Lemma sorted_stable (l : list A) :
  StronglySorted E l -> StronglySorted (stable_before lt E) (sorted lt l).
Proof.
  induction l as [ | x l IH ]; intros Hl; simpl.
  - constructor.
  - inversion Hl as [ | ? ? Hl' Hx ]; subst.
    apply insert_sorted_stable; [ apply IH, Hl' | ].
    apply Forall_forall. intros z Hz. apply (proj1 (sorted_In z l)) in Hz.
    rewrite Forall_forall in Hx. apply Hx, Hz.
Qed.

End SortedFacts.



Lemma StronglySorted_impl {A : Type} (R R' : A -> A -> Prop) (l : list A) :
  (forall x y, R x y -> R' x y) -> StronglySorted R l -> StronglySorted R' l.
Proof.
  intros Himpl. induction 1 as [ | x l _ IH Hx ]; constructor.
  - exact IH.
  - apply Forall_forall. intros y Hy. rewrite Forall_forall in Hx.
    apply Himpl, Hx, Hy.
Qed.

(** ** The ranking *)

Lemma Qltb_true (a b : Q) : Qltb a b = true <-> (a < b)%Q.
Proof.
  unfold Qltb. rewrite negb_true_iff.
  destruct (Qle_bool b a) eqn:H.
  - apply Qle_bool_iff in H. split; [ discriminate | intros H'; lra ].
  - split; [ intros _ | reflexivity ].
    apply Qnot_le_lt. intros H'. apply Qle_bool_iff in H'. congruence.
Qed.










Lemma enumerate_length {A : Type} (l : list A) :
  List.length (enumerate l) = List.length l.
Proof.
  unfold enumerate. rewrite length_combine, length_seq. apply Nat.min_id.
Qed.



Lemma assemble_Ok_inv (sol : solution) (qnp qep tnp tep : list pydict)
    (x : nat * Q) (g : graph) :
  assemble sol qnp qep tnp tep x = Ok g ->
  exists ms,
    nth (fst x) (subgraphs sol) [] <> []
    /\ mapM (match_edge (inference_costs sol))
         (sorted pair_lt (nth (fst x) (subgraphs sol) [])) = Ok ms
    /\ cost g = snd x
    /\ g_nodes g =
       qnp ++ filter (is_match_end
                        (hashed_ends (map snd (nth (fst x) (subgraphs sol) []))))
                tnp
    /\ links g =
       (ms ++ qep)
       ++ filter (joins_match_ends
                    (hashed_ends (map snd (nth (fst x) (subgraphs sol) []))))
            tep.
Proof.
  unfold assemble. intros H.
  apply rbind_Ok_inv in H as [ends [Hends H]].
  apply rbind_Ok_inv in H as [ms [Hms H]].
  injection H as <-. exists ms.
  destruct (nth (fst x) (subgraphs sol) []) as [ | st S ] eqn:HS;
    [ discriminate Hends | ].
  injection Hends as <-.
  repeat split; try assumption; try reflexivity. discriminate.
Qed.


Lemma _get_scores_length (costs : list ((Z * Z) * Q)) (query_nodes : list Node)
    (sgs : list (list (Z * Z))) (size : Q) (scores : list Q) :
  _get_scores costs query_nodes sgs size = Ok scores ->
  List.length scores = List.length sgs.
Proof.
  unfold _get_scores. intros H. apply mapM_Ok_Forall2 in H.
  symmetry. eapply Forall2_length, H.
Qed.

Lemma rank_length (sgs : list (list (Z * Z))) (scores : list Q) :
  List.length scores = List.length sgs -> len (rank sgs scores) = len sgs.
Proof.
  intros H. unfold len, rank. rewrite sorted_length, enumerate_length, H.
  reflexivity.
Qed.

(** The graphs returned are assembled, in order, from the entries
    selected off the ranking. *)
Lemma execute_selected (query_id n h max_iters : Z) (w w' : world)
    (r : query_result) :
  execute query_id n h max_iters w = (Ok r, w') ->
  exists sol scores qep tep,
    solve (select_join (db w) query_id h) h max_iters = Ok sol
    /\ _get_scores (inference_costs sol) (query_nodes_of query_id (db w))
         (subgraphs sol) (sz sol) = Ok scores
    /\ Forall2 (fun e p => Edge_to_dict e = Ok p)
         (query_edges_of query_id (db w)) qep
    /\ Forall2 (fun e p => Edge_to_dict e = Ok p)
         (target_edges_of query_id (db w) (target_edges_arr sol)) tep
    /\ Forall2 (fun x g =>
                  assemble sol
                    (map Node_to_dict (query_nodes_of query_id (db w))) qep
                    (map Node_to_dict (target_nodes_of query_id (db w))) tep
                    x = Ok g)
         (slice_to (Z.min n (len (subgraphs sol))) (rank (subgraphs sol) scores))
         (r_graphs r).
Proof.
  intros H. apply execute_Ok_inv in H.
  destruct H as (sol & scores & qep & tep & _ & _ & Hsol & _ & Hscores
                 & Hqep & Htep & Hgs & _).
  rewrite (rank_length _ _ (_get_scores_length _ _ _ _ _ Hscores)) in Hgs.
  apply mapM_Ok_Forall2 in Hqep, Htep, Hgs.
  exists sol, scores, qep, tep. repeat split; assumption.
Qed.


(** ** Match edges *)

Lemma pair_eqb_eq (a b : Z * Z) : pair_eqb a b = true <-> a = b.
Proof.
  unfold pair_eqb. destruct a as [a1 a2], b as [b1 b2]. simpl.
  rewrite andb_true_iff, !Z.eqb_eq. split.
  - intros [-> ->]. reflexivity.
  - intros H. injection H as -> ->. split; reflexivity.
Qed.

Lemma costs_get_In (k : Z * Z) (costs : list ((Z * Z) * Q)) (c : Q) :
  costs_get k costs = Ok c -> In (k, c) costs.
Proof.
  induction costs as [ | [k' c'] costs IH ]; simpl; intros H.
  - discriminate H.
  - destruct (pair_eqb k k') eqn:Hk.
    + apply pair_eqb_eq in Hk. injection H as ->. left. congruence.
    + right. apply IH, H.
Qed.

Lemma Edge_to_dict_match (s e : Z) (wt : Q) :
  Edge_to_dict {| start := s; end_ := e; etype := RMatch;
                  emeta := Some []; weight := wt |}
  = Ok (match_payload (s, e) wt).
Proof. reflexivity. Qed.

Lemma match_edge_Ok_inv (costs : list ((Z * Z) * Q)) (st : Z * Z) (m : pydict) :
  match_edge costs st = Ok m ->
  exists c, costs_get st costs = Ok c /\ m = match_payload st (1 - c).
Proof.
  unfold match_edge. intros H.
  apply rbind_Ok_inv in H as [c [Hc H]].
  exists c. split; [ exact Hc | ].
  rewrite Edge_to_dict_match in H. injection H as <-.
  destruct st; reflexivity.
Qed.

(** C5. Provided the solver keeps the costs it returns within [0, 1],
    every graph returned by [execute] starts its links with one match
    edge per pair of its subgraph, in sorted order; the edge of the
    pair [(q, t)] carries the weight [1 - inference_costs[q, t]]
    exactly, and that weight lies in [0, 1]; a weight [1 - c] lies in
    [0, 1] precisely when [c] does. *)
Theorem match_edge_weights (query_id n h max_iters : Z) (w w' : world)
    (r : query_result) :
  (forall recs h' mi sol, solve recs h' mi = Ok sol -> costs_bounded sol) ->
  execute query_id n h max_iters w = (Ok r, w') ->
  exists sol scores,
    solve (select_join (db w) query_id h) h max_iters = Ok sol
    /\ Forall2 (fun x g =>
         let S := nth (fst x) (subgraphs sol) [] in
         exists ms rest,
           links g = ms ++ rest
           /\ Permutation (sorted pair_lt S) S
           /\ Forall2 (fun st m =>
                exists c,
                  costs_get st (inference_costs sol) = Ok c
                  /\ m = match_payload st (1 - c)
                  /\ dict_get "weight" m = Some (VFloat (1 - c))
                  /\ (0 <= 1 - c <= 1)%Q)
                (sorted pair_lt S) ms)
         (slice_to (Z.min n (len (subgraphs sol))) (rank (subgraphs sol) scores))
         (r_graphs r)
    /\ (forall c : Q, (0 <= 1 - c <= 1)%Q <-> (0 <= c <= 1)%Q).
Proof.
  intros Hsolve H.
  destruct (execute_selected _ _ _ _ _ _ _ H)
    as (sol & scores & qep & tep & Hsol & _ & _ & _ & Hgs).
  exists sol, scores. split; [ exact Hsol | ]. split.
  - eapply Forall2_impl; [ | exact Hgs ].
    intros x g Hx. apply assemble_Ok_inv in Hx.
    destruct Hx as (ms & _ & Hms & _ & _ & Hlinks).
    exists ms. eexists. split; [ rewrite Hlinks, <- app_assoc; reflexivity | ].
    split; [ apply sorted_perm | ].
    apply mapM_Ok_Forall2 in Hms.
    eapply Forall2_impl; [ | exact Hms ].
    intros st m Hm. apply match_edge_Ok_inv in Hm. destruct Hm as [c [Hc ->]].
    exists c. split; [ exact Hc | ]. split; [ reflexivity | ].
    split; [ reflexivity | ].
    apply costs_get_In in Hc. apply (Hsolve _ _ _ _ Hsol) in Hc. lra.
  - intros c. lra.
Qed.


Lemma Forall2_In_l {A B : Type} (R : A -> B -> Prop) (l : list A) (l' : list B)
    (x : A) :
  Forall2 R l l' -> In x l -> exists y, In y l' /\ R x y.
Proof.
  induction 1 as [ | a b l l' Hab _ IH ]; intros Hin.
  - destruct Hin.
  - destruct Hin as [<- | Hin].
    + exists b. split; [ left; reflexivity | exact Hab ].
    + destruct (IH Hin) as [y [Hy Hxy]].
      exists y. split; [ right; exact Hy | exact Hxy ].
Qed.

(** ** Assembly of a result graph *)

Lemma mem_Z_In (z : Z) (l : list Z) : mem_Z z l = true <-> In z l.
Proof.
  unfold mem_Z. rewrite existsb_exists. split.
  - intros [y [Hy Hzy]]. apply Z.eqb_eq in Hzy. subst y. exact Hy.
  - intros H. exists z. split; [ exact H | apply Z.eqb_refl ].
Qed.








(** ** The guard on matches *)

Lemma py_int_rejection (v : pyval) (e : exn) :
  py_int v = Raise e -> is_rejection e.
Proof.
  destruct v; simpl; try discriminate;
    try (intros H; injection H as <-; exact I).
  destruct (int_of_string P s); [ discriminate | ].
  intros H; injection H as <-; exact I.
Qed.

Lemma py_float_rejection (v : pyval) (e : exn) :
  py_float v = Raise e -> is_rejection e.
Proof.
  destruct v; simpl; try discriminate;
    try (intros H; injection H as <-; exact I).
  destruct (float_of_string P s); [ discriminate | ].
  intros H; injection H as <-; exact I.
Qed.

Lemma in_range_spec (q : Q) :
  Qltb 0 q && Qle_bool q 1 = true <-> (0 < q <= 1)%Q.
Proof.
  rewrite andb_true_iff, Qltb_true, Qle_bool_iff. reflexivity.
Qed.

Lemma check_match_spec (m : model_match) :
  (match_accepted m -> check_match m = Ok m)
  /\ (~ match_accepted m -> exists e, check_match m = Raise e /\ is_rejection e).
Proof.
  unfold match_accepted, check_match.
  destruct (py_int (m_start m)) as [s | e1] eqn:H1.
  2:{ split.
      - intros [[s Hs] _]. discriminate Hs.
      - intros _. pose proof (py_int_rejection _ _ H1) as Hr.
        destruct e1; try contradiction; eexists; split;
          try reflexivity; exact I. }
  destruct (py_int (m_end m)) as [e | e2] eqn:H2.
  2:{ split.
      - intros [_ [[e He] _]]. discriminate He.
      - intros _. pose proof (py_int_rejection _ _ H2) as Hr.
        destruct e2; try contradiction; eexists; split;
          try reflexivity; exact I. }
  destruct (py_float (m_weight m)) as [wt | e3] eqn:H3.
  2:{ split.
      - intros [_ [_ [q [Hq _]]]]. discriminate Hq.
      - intros _. pose proof (py_float_rejection _ _ H3) as Hr.
        destruct e3; try contradiction; eexists; split;
          try reflexivity; exact I. }
  destruct wt as [q | ].
  - destruct (Qltb 0 q && Qle_bool q 1) eqn:Hrange.
    + split; [ reflexivity | ].
      intros Hno. exfalso. apply Hno.
      split; [ exists s; reflexivity | ].
      split; [ exists e; reflexivity | ].
      exists q. split; [ reflexivity | apply in_range_spec, Hrange ].
    + split.
      * intros [_ [_ [q' [Hq' Hr]]]]. injection Hq' as ->.
        apply in_range_spec in Hr. congruence.
      * intros _. eexists. split; [ reflexivity | exact I ].
  - split.
    + intros [_ [_ [q' [Hq' _]]]]. discriminate Hq'.
    + intros _. eexists. split; [ reflexivity | exact I ].
Qed.

Lemma check_match_Ok_inv (m m' : model_match) :
  check_match m = Ok m' -> m' = m /\ match_accepted m.
Proof.
  intros H. destruct (check_match_spec m) as [_ Hno].
  assert (Hdec : match_accepted m \/ ~ match_accepted m).
  { unfold match_accepted, check_match in *.
    destruct (py_int (m_start m)) as [s | e1]; [ | right; intros [[? ?] _]; discriminate ].
    destruct (py_int (m_end m)) as [e | e2]; [ | right; intros [_ [[? ?] _]]; discriminate ].
    destruct (py_float (m_weight m)) as [[q | ] | e3];
      [ | right; intros [_ [_ [? [? _]]]]; discriminate
        | right; intros [_ [_ [? [? _]]]]; discriminate ].
    destruct (Qltb 0 q && Qle_bool q 1) eqn:Hrange.
    - left. split; [ eexists; reflexivity | ].
      split; [ eexists; reflexivity | ].
      exists q. split; [ reflexivity | apply in_range_spec, Hrange ].
    - right. intros [_ [_ [q' [Hq' Hr]]]]. injection Hq' as ->.
      apply in_range_spec in Hr. congruence. }
  destruct Hdec as [Hyes | Hnot].
  - split; [ | exact Hyes ].
    destruct (check_match_spec m) as [Hok _]. rewrite (Hok Hyes) in H.
    injection H as <-. reflexivity.
  - destruct (Hno Hnot) as [e [He _]]. congruence.
Qed.

Lemma check_matches_Ok_inv (ms ms' : list model_match) :
  check_matches ms = Ok ms' -> ms' = ms /\ Forall match_accepted ms.
Proof.
  unfold check_matches. intros H. apply mapM_Ok_Forall2 in H.
  induction H as [ | m m' ms ms' Hm _ [-> IH] ].
  - split; [ reflexivity | constructor ].
  - apply check_match_Ok_inv in Hm as [-> Hm].
    split; [ reflexivity | constructor; assumption ].
Qed.


Lemma mapM_Raise_with {A B : Type} (f : A -> result B) (Pr : exn -> Prop)
    (l : list A) :
  (forall x e, f x = Raise e -> Pr e) ->
  Exists (fun x => exists e, f x = Raise e) l ->
  exists e, mapM f l = Raise e /\ Pr e.
Proof.
  intros Hf. induction 1 as [ x l [e He] | x l _ [e [IH Hp]] ]; simpl.
  - rewrite He. exists e. split; [ reflexivity | apply (Hf x), He ].
  - destruct (f x) as [y | e'] eqn:Hx; simpl.
    + rewrite IH. exists e. split; [ reflexivity | exact Hp ].
    + exists e'. split; [ reflexivity | apply (Hf x), Hx ].
Qed.

Lemma check_match_Raise (m : model_match) (e : exn) :
  check_match m = Raise e -> is_rejection e /\ ~ match_accepted m.
Proof.
  intros H. destruct (check_match_spec m) as [Hok Hno].
  assert (Hnot : ~ match_accepted m) by (intros Hyes; rewrite (Hok Hyes) in H; discriminate H).
  split; [ | exact Hnot ].
  destruct (Hno Hnot) as [e' [He' Hr]]. congruence.
Qed.

Lemma joined_graph_world (col : query_row -> Z) (query_id : Z) (w : world) :
  snd (joined_graph col query_id w) = w.
Proof.
  unfold joined_graph, bind. rewrite _check_exists_run.
  destruct (query_exists query_id (db w)); [ | reflexivity ].
  unfold read.
  destruct (find _ (graphs (db w))); reflexivity.
Qed.

Lemma match_of_row_accepted (query_id qg tg : Z) (keys : list string)
    (row : list pyval) (ms : list model_match) :
  match_of_row query_id qg tg keys row = Ok ms -> Forall match_accepted ms.
Proof.
  unfold match_of_row.
  destruct row as [ | s [ | e [ | wt values ] ] ];
    try (intros H; injection H as <-; constructor).
  intros H. apply rbind_Ok_inv in H as [meta [_ H]].
  apply check_matches_Ok_inv in H as [-> H]. exact H.
Qed.

Lemma add_matches_outcome (query_id : Z) (sources targets : list pykey)
    (weights : list pyval) (kwargs : list (string * list pyval))
    (w w' : world) (r : result unit) :
  add_matches query_id sources targets weights kwargs w = (r, w') ->
  (exists e, r = Raise e /\ w' = w)
  \/ (r = Ok tt
      /\ exists rows,
           w' = {| db := add_all_matches rows (db w); calls := calls w |}
           /\ Forall match_accepted rows).
Proof.
  unfold add_matches. unfold bind at 1. rewrite _check_exists_run.
  destruct (query_exists query_id (db w)).
  2:{ intros H. injection H as <- <-. left. eexists. split; reflexivity. }
  unfold bind at 1. unfold lift at 1.
  destruct (check_reserved (map fst kwargs)) as [[] | e].
  2:{ intros H. injection H as <- <-. left. eexists. split; reflexivity. }
  unfold bind at 1.
  pose proof (joined_graph_world start_graph_id query_id w) as Hq.
  unfold query_graph.
  destruct (joined_graph start_graph_id query_id w) as [[qg | e] w1];
    simpl in Hq; subst w1.
  2:{ intros H. injection H as <- <-. left. eexists. split; reflexivity. }
  unfold bind at 1.
  pose proof (joined_graph_world end_graph_id query_id w) as Ht.
  unfold target_graph.
  destruct (joined_graph end_graph_id query_id w) as [[tg | e] w1];
    simpl in Ht; subst w1.
  2:{ intros H. injection H as <- <-. left. eexists. split; reflexivity. }
  unfold session_scope.
  destruct (mapM _ _) as [rows | e] eqn:Hrows; simpl.
  - intros H. injection H as <- <-. right. split; [ reflexivity | ].
    exists (List.concat rows). split; [ reflexivity | ].
    apply mapM_Ok_Forall2 in Hrows.
    induction Hrows as [ | row ms zs rows Hm _ IH ]; simpl.
    + constructor.
    + apply Forall_app. split; [ | exact IH ].
      eapply match_of_row_accepted, Hm.
  - intros H. injection H as <- <-. left. eexists. split; reflexivity.
Qed.

(** C7 (amended). A list of matches passes [check_matches] unchanged
    when every start and end coerces to an integer and every weight to
    a finite number of (0, 1], and otherwise the guard raises a
    [ValueError] (a [TypeError] when the field is not a number or a
    string at all); [add_matches] either raises and leaves the world as
    it was, or stores rows that all passed the guard.  Whether the
    start equals the end plays no part. *)
Theorem check_matches_guard (ms : list model_match) :
  (Forall match_accepted ms -> check_matches ms = Ok ms)
  /\ (Exists (fun m => ~ match_accepted m) ms ->
      exists e, check_matches ms = Raise e /\ is_rejection e)
  /\ (forall query_id sources targets weights kwargs w r w',
        add_matches query_id sources targets weights kwargs w = (r, w') ->
        (exists e, r = Raise e /\ w' = w)
        \/ (r = Ok tt
            /\ exists rows,
                 w' = {| db := add_all_matches rows (db w); calls := calls w |}
                 /\ Forall match_accepted rows)).
Proof.
  split; [ | split ].
  - intros Hall. unfold check_matches.
    rewrite (mapM_total check_match (fun m => m)).
    + rewrite map_id. reflexivity.
    + intros m Hm. rewrite Forall_forall in Hall.
      apply check_match_spec, Hall, Hm.
  - intros Hex. unfold check_matches. apply mapM_Raise_with.
    + intros m e He. apply check_match_Raise in He. apply He.
    + apply Exists_exists in Hex as [m [Hm Hno]]. apply Exists_exists.
      exists m. split; [ exact Hm | ].
      destruct (check_match_spec m) as [_ H].
      destruct (H Hno) as [e [He _]]. exists e. exact He.
  - intros. eapply add_matches_outcome. eassumption.
Qed.

(** ** [execute] only reads *)














(** ** Edges are stored in both directions *)



Lemma fold_max_ge (ns : list nat) (n : nat) :
  In n ns -> (n <= fold_right Nat.max 0 ns)%nat.
Proof.
  induction ns as [ | m ns IH ]; simpl; intros H.
  - destruct H.
  - destruct H as [-> | H]; [ lia | specialize (IH H); lia ].
Qed.


Lemma check_edge_Ok_inv (edge edge' : model_edge) :
  check_edge edge = Ok edge' ->
  edge' = edge
  /\ exists a b, py_int (me_start edge) = Ok a /\ py_int (me_end edge) = Ok b
                 /\ a <> b.
Proof.
  unfold check_edge.
  destruct (py_int (me_start edge)) as [a | e1].
  2:{ destruct e1; discriminate. }
  destruct (py_int (me_end edge)) as [b | e2].
  2:{ destruct e2; discriminate. }
  destruct (a =? b) eqn:Hab; [ discriminate | ].
  intros H. injection H as <-. split; [ reflexivity | ].
  exists a, b. apply Z.eqb_neq in Hab. repeat split; assumption.
Qed.









(** ** Edges are presented once, in canonical orientation *)

Lemma query_rows_unique (query_id : Z) (s : store) :
  NoDup (map q_query_id (queries s)) ->
  query_rows query_id s = [] \/ exists q, query_rows query_id s = [q].
Proof.
  unfold query_rows. induction (queries s) as [ | q qs IH ]; simpl; intros Hnd.
  - left. reflexivity.
  - inversion Hnd as [ | ? ? Hnotin Hnd' ]; subst.
    destruct (q_query_id q =? query_id) eqn:Hq.
    + right. exists q. f_equal.
      apply Z.eqb_eq in Hq.
      destruct (filter _ qs) as [ | q' rest ] eqn:Hf; [ reflexivity | ].
      exfalso. apply Hnotin.
      assert (Hin : In q' (filter (fun q0 => q_query_id q0 =? query_id) qs))
        by (rewrite Hf; left; reflexivity).
      apply filter_In in Hin as [Hin Hid]. apply Z.eqb_eq in Hid.
      rewrite Hq, <- Hid. apply in_map. exact Hin.
    + apply IH, Hnd'.
Qed.







(** ** The cutoff of [_target_edges] *)

Lemma filter_idem {A : Type} (f : A -> bool) (l : list A) :
  filter f (filter f l) = filter f l.
Proof.
  induction l as [ | x l IH ]; simpl; [ reflexivity | ].
  destruct (f x) eqn:Hx; simpl; [ rewrite Hx, IH | rewrite IH ]; reflexivity.
Qed.

Lemma scratch_edges_filter (target_nodes : list Node) (arr : list arr_row) :
  scratch_edges target_nodes (filter (fun r => dist_u r <? 2) arr)
  = scratch_edges target_nodes arr.
Proof. unfold scratch_edges. rewrite filter_idem. reflexivity. Qed.

Lemma target_edges_of_filter (query_id : Z) (s : store) (arr : list arr_row) :
  target_edges_of query_id s (filter (fun r => dist_u r <? 2) arr)
  = target_edges_of query_id s arr.
Proof. unfold target_edges_of. rewrite scratch_edges_filter. reflexivity. Qed.

(** C10. [_target_edges] looks only at the rows of the optimiser's
    array whose distance is below 2: the rows at distance 2 or more can
    be dropped beforehand without changing its result, every edge it
    considers comes from a row below 2, and the same holds inside
    [execute] whatever hopping distance it is called with; for every
    hopping distance other than 2 there are inputs on which a cutoff at
    that distance would consider different edges. *)
Theorem target_edges_cutoff (query_id : Z) (target_nodes : list Node)
    (arr : list arr_row) (w : world) (h : Z) :
  _target_edges query_id target_nodes arr w
  = _target_edges query_id target_nodes (filter (fun r => dist_u r <? 2) arr) w
  /\ (forall e, In e (scratch_edges target_nodes arr) ->
        exists r, In r arr /\ dist_u r < 2 /\ start e = u r /\ end_ e = uu r)
  /\ scratch_edges target_nodes arr = scratch_edges_within 2 target_nodes arr
  /\ (h <> 2 ->
      exists tn' arr',
        scratch_edges tn' arr' <> scratch_edges_within h tn' arr')
  /\ (forall n max_iters w' r,
        execute query_id n h max_iters w = (Ok r, w') ->
        exists sol tep,
          solve (select_join (db w) query_id h) h max_iters = Ok sol
          /\ mapM Edge_to_dict
               (target_edges_of query_id (db w)
                  (filter (fun r => dist_u r <? 2) (target_edges_arr sol)))
             = Ok tep).
Proof.
  split; [ | split; [ | split; [ | split ] ] ].
  - unfold _target_edges. rewrite scratch_edges_filter. reflexivity.
  - intros e He. unfold scratch_edges in He.
    apply filter_In in He as [He _].
    apply in_map_iff in He as [r [<- Hr]].
    apply filter_In in Hr as [Hr Hd]. apply Z.ltb_lt in Hd.
    exists r. repeat split; assumption.
  - reflexivity.
  - intros Hh.
    exists [ {| nid := 1; ntype := RTarget; nmeta := [] |};
             {| nid := 2; ntype := RTarget; nmeta := [] |} ].
    destruct (Z_lt_le_dec 2 h) as [Hgt | Hle].
    + exists [ {| u := 1; uu := 2; dist_u := 2 |} ].
      unfold scratch_edges, scratch_edges_within. simpl.
      apply Z.ltb_lt in Hgt. rewrite Hgt. simpl. discriminate.
    + exists [ {| u := 1; uu := 2; dist_u := h |} ].
      unfold scratch_edges, scratch_edges_within. simpl.
      rewrite Z.ltb_irrefl.
      assert (Hlt : (h <? 2) = true) by (apply Z.ltb_lt; lia).
      rewrite Hlt. simpl. discriminate.
  - intros n max_iters w' r H. apply execute_Ok_inv in H.
    destruct H as (sol & scores & qep & tep & _ & _ & Hsol & _ & _ & _ & Htep & _).
    exists sol, tep. split; [ exact Hsol | ].
    rewrite target_edges_of_filter. exact Htep.
Qed.

(** ** [execute] past its guard *)

Lemma execute_run (query_id n h max_iters : Z) (w : world) :
  query_exists query_id (db w) = true ->
  count_matches query_id (db w) <> 0 ->
  execute query_id n h max_iters w
  = (execute_outcome query_id n h max_iters (db w),
     after_optimise query_id h max_iters w).
Proof.
  intros Hex Hcount.
  unfold execute. unfold bind at 1. rewrite _check_exists_run, Hex.
  unfold bind at 1. rewrite __len___run, Hex.
  apply Z.eqb_neq in Hcount. rewrite Hcount.
  unfold _query_nodes, _target_nodes, _query_edges.
  unfold bind at 1. unfold read at 1.
  unfold bind at 1. unfold read at 1.
  unfold bind at 1. unfold read at 1.
  unfold bind at 1. rewrite _optimise_run.
  unfold execute_outcome.
  destruct (solve (select_join (db w) query_id h) h max_iters) as [sol | e];
    [ | reflexivity ].
  unfold _target_edges. unfold bind at 1. unfold read at 1.
  cbn [db after_optimise rbind].
  unfold bind at 1. unfold lift at 1.
  fold (query_nodes_of query_id (db w)).
  destruct (_get_scores _ _ _ _) as [scores | e]; [ | reflexivity ].
  cbn [rbind]. unfold bind at 1. unfold lift at 1.
  fold (query_edges_of query_id (db w)).
  destruct (mapM Edge_to_dict (query_edges_of query_id (db w))) as [qep | e];
    [ | reflexivity ].
  cbn [rbind]. unfold bind at 1. unfold lift at 1.
  fold (target_nodes_of query_id (db w)).
  fold (target_edges_of query_id (db w) (target_edges_arr sol)).
  destruct (mapM Edge_to_dict (target_edges_of _ _ _)) as [tep | e];
    [ | reflexivity ].
  cbn [rbind]. unfold bind at 1. unfold lift at 1.
  destruct (mapM (assemble _ _ _ _ _) _) as [gs | e]; reflexivity.
Qed.

Lemma mapM_defined {A B : Type} (f : A -> result B) (l : list A) :
  (forall x, In x l -> exists y, f x = Ok y) -> exists ys, mapM f l = Ok ys.
Proof.
  induction l as [ | x l IH ]; intros H; simpl.
  - exists []. reflexivity.
  - destruct (H x (or_introl eq_refl)) as [y Hy]. rewrite Hy. simpl.
    destruct IH as [ys Hys]; [ intros z Hz; apply H; right; exact Hz | ].
    rewrite Hys. simpl. exists (y :: ys). reflexivity.
Qed.

(** When every failing element fails with the same exception, that
    exception is the outcome as soon as one element fails. *)
Lemma mapM_Raise_same {A B : Type} (f : A -> result B) (e : exn) (l : list A) :
  (forall x, In x l -> (exists y, f x = Ok y) \/ f x = Raise e) ->
  (exists x, In x l /\ f x = Raise e) ->
  mapM f l = Raise e.
Proof.
  induction l as [ | x l IH ]; intros Hall [z [Hz Hfz]]; simpl.
  - destruct Hz.
  - destruct (Hall x (or_introl eq_refl)) as [[y Hy] | Hx].
    + rewrite Hy. simpl. rewrite IH; [ reflexivity | | ].
      * intros x' Hx'. apply Hall. right. exact Hx'.
      * destruct Hz as [<- | Hz]; [ congruence | ].
        exists z. split; assumption.
    + rewrite Hx. reflexivity.
Qed.

Lemma _get_scores_defined (costs : list ((Z * Z) * Q)) (query_nodes : list Node)
    (sgs : list (list (Z * Z))) (size : Q) :
  query_nodes <> [] ->
  (forall S k, In S sgs -> In k S -> exists c, costs_get k costs = Ok c) ->
  exists scores, _get_scores costs query_nodes sgs size = Ok scores.
Proof.
  intros Hqn Hdef. unfold _get_scores. apply mapM_defined.
  intros S HS. rewrite sum_costs_defined by (intros k Hk; apply (Hdef S k HS Hk)).
  simpl.
  destruct (len query_nodes =? 0) eqn:Hlen.
  - apply Z.eqb_eq, len_zero_nil in Hlen. contradiction.
  - eexists. reflexivity.
Qed.

Lemma Edge_to_dict_defined (e : Edge) (meta : pydict) :
  emeta e = Some meta -> exists p, Edge_to_dict e = Ok p.
Proof.
  intros Hmeta. unfold Edge_to_dict. rewrite Hmeta.
  destruct (etype e); eexists; reflexivity.
Qed.

Lemma query_edges_payload_defined (query_id : Z) (s : store) :
  exists qep, mapM Edge_to_dict (query_edges_of query_id s) = Ok qep.
Proof.
  apply mapM_defined. intros e He.
  apply (proj1 (sorted_In Edge_lt e _)) in He.
  unfold select_query_edges in He.
  apply in_flat_map in He as [q [_ He]].
  apply in_map_iff in He as [row [<- _]].
  eapply Edge_to_dict_defined. reflexivity.
Qed.

Lemma target_edges_payload_defined (query_id : Z) (s : store) (arr : list arr_row) :
  exists tep, mapM Edge_to_dict (target_edges_of query_id s arr) = Ok tep.
Proof.
  apply mapM_defined. intros e He. unfold target_edges_of in He.
  apply (proj1 (sorted_In Edge_lt e _)) in He.
  unfold select_target_edges in He.
  apply in_map_iff in He as [row [<- _]].
  eapply Edge_to_dict_defined. reflexivity.
Qed.

Lemma firstn_subset {A : Type} (n : nat) (l : list A) (x : A) :
  In x (firstn n l) -> In x l.
Proof.
  intros H. rewrite <- (firstn_skipn n l). apply in_or_app. left. exact H.
Qed.

Lemma slice_to_In {A : Type} (k : Z) (l : list A) (x : A) :
  In x (slice_to k l) -> In x l.
Proof.
  unfold slice_to. destruct (0 <=? k); apply firstn_subset.
Qed.

Lemma enumerate_In {A : Type} (l : list A) (x : nat * A) :
  In x (enumerate l) -> (fst x < List.length l)%nat.
Proof.
  destruct x as [i a]. unfold enumerate. intros H.
  apply in_combine_l in H. apply in_seq in H. simpl. lia.
Qed.

(** An entry of the ranking points at one of the subgraphs. *)
Lemma rank_In_subgraph (sgs : list (list (Z * Z))) (scores : list Q)
    (x : nat * Q) :
  List.length scores = List.length sgs ->
  In x (rank sgs scores) -> In (nth (fst x) sgs []) sgs.
Proof.
  intros Hlen Hx. unfold rank in Hx.
  apply (proj1 (sorted_In _ x _)) in Hx.
  apply enumerate_In in Hx. apply nth_In. lia.
Qed.

Lemma match_edges_defined (costs : list ((Z * Z) * Q)) (S : list (Z * Z)) :
  (forall k, In k S -> exists c, costs_get k costs = Ok c) ->
  exists ms, mapM (match_edge costs) (sorted pair_lt S) = Ok ms.
Proof.
  intros Hdef. apply mapM_defined. intros st Hst.
  apply (proj1 (sorted_In pair_lt st S)) in Hst.
  destruct (Hdef st Hst) as [c Hc].
  unfold match_edge. rewrite Hc. simpl.
  destruct st as [s t]. rewrite Edge_to_dict_match. eexists. reflexivity.
Qed.

Lemma assemble_cases (sol : solution) (qnp qep tnp tep : list pydict)
    (x : nat * Q) :
  (forall k, In k (nth (fst x) (subgraphs sol) []) ->
             exists c, costs_get k (inference_costs sol) = Ok c) ->
  (nth (fst x) (subgraphs sol) [] <> []
   /\ exists g, assemble sol qnp qep tnp tep x = Ok g)
  \/ (nth (fst x) (subgraphs sol) [] = []
      /\ assemble sol qnp qep tnp tep x
         = Raise (ValueError "not enough values to unpack (expected 2, got 0)")).
Proof.
  intros Hdef. unfold assemble.
  destruct (nth (fst x) (subgraphs sol) []) as [ | st S ] eqn:HS.
  - right. split; reflexivity.
  - left. split; [ discriminate | ].
    destruct (match_edges_defined _ _ Hdef) as [ms Hms].
    cbn [rbind]. rewrite Hms. cbn [rbind]. eexists. reflexivity.
Qed.

(** X1. When the query exists and has matches, [execute] calls the
    join and then the solver, each once and with the parameters it was
    given, and leaves the database alone, whether it then returns or
    raises; an exception of the solver reaches the caller as it is. *)
Theorem execute_optimises_once (query_id n h max_iters : Z) (w : world) :
  query_exists query_id (db w) = true ->
  count_matches query_id (db w) <> 0 ->
  calls (snd (execute query_id n h max_iters w))
  = calls w ++ [EvJoin query_id h; EvSolve h max_iters]
  /\ db (snd (execute query_id n h max_iters w)) = db w
  /\ (forall e, solve (select_join (db w) query_id h) h max_iters = Raise e ->
                fst (execute query_id n h max_iters w) = Raise e).
Proof.
  intros Hex Hcount. rewrite (execute_run _ _ _ _ _ Hex Hcount).
  split; [ reflexivity | ]. split; [ reflexivity | ].
  intros e He. cbn [fst]. unfold execute_outcome. rewrite He. reflexivity.
Qed.

(** X2. [execute] returns a result whenever the query exists and has
    matches, the query graph has a node, the solver returns, none of
    its subgraphs is empty and its cost table has an entry for every
    pair of every subgraph. *)
Theorem execute_returns (query_id n h max_iters : Z) (w : world)
    (sol : solution) :
  query_exists query_id (db w) = true ->
  count_matches query_id (db w) <> 0 ->
  select_query_nodes query_id (db w) <> [] ->
  solve (select_join (db w) query_id h) h max_iters = Ok sol ->
  (forall S, In S (subgraphs sol) ->
     S <> [] /\ forall k, In k S ->
                  exists c, costs_get k (inference_costs sol) = Ok c) ->
  exists r,
    execute query_id n h max_iters w
    = (Ok r, after_optimise query_id h max_iters w).
Proof.
  intros Hex Hcount Hnodes Hsol Hsgs.
  rewrite (execute_run _ _ _ _ _ Hex Hcount).
  unfold execute_outcome. rewrite Hsol. cbn [rbind].
  destruct (_get_scores_defined (inference_costs sol)
              (query_nodes_of query_id (db w)) (subgraphs sol) (sz sol))
    as [scores Hscores].
  { unfold query_nodes_of. intros Hnil. apply Hnodes.
    apply length_zero_iff_nil. rewrite <- (sorted_length Node_lt), Hnil.
    reflexivity. }
  { intros S k HS Hk. apply (proj2 (Hsgs S HS) k Hk). }
  rewrite Hscores. cbn [rbind].
  destruct (query_edges_payload_defined query_id (db w)) as [qep Hqep].
  rewrite Hqep. cbn [rbind].
  destruct (target_edges_payload_defined query_id (db w) (target_edges_arr sol))
    as [tep Htep].
  rewrite Htep. cbn [rbind].
  destruct (mapM_defined
              (assemble sol (map Node_to_dict (query_nodes_of query_id (db w))) qep
                 (map Node_to_dict (target_nodes_of query_id (db w))) tep)
              (slice_to (Z.min n (len (rank (subgraphs sol) scores)))
                 (rank (subgraphs sol) scores))) as [gs Hgs].
  { intros x Hx. apply slice_to_In in Hx.
    apply rank_In_subgraph in Hx;
      [ | apply (_get_scores_length _ _ _ _ _ Hscores) ].
    destruct (Hsgs _ Hx) as [Hne Hkeys].
    destruct (assemble_cases sol
                (map Node_to_dict (query_nodes_of query_id (db w))) qep
                (map Node_to_dict (target_nodes_of query_id (db w))) tep x Hkeys)
      as [[_ Hg] | [Hnil _]]; [ exact Hg | contradiction ]. }
  rewrite Hgs. cbn [rbind]. eexists. reflexivity.
Qed.

Lemma assemble_multigraph (sol : solution) (qnp qep tnp tep : list pydict)
    (x : nat * Q) (g : graph) :
  assemble sol qnp qep tnp tep x = Ok g -> is_multigraph g = false.
Proof.
  unfold assemble. intros H.
  apply rbind_Ok_inv in H as [ends [_ H]].
  apply rbind_Ok_inv in H as [ms [_ H]].
  injection H as <-. reflexivity.
Qed.

Lemma slice_to_length {A : Type} (n : Z) (l : list A) :
  len (slice_to (Z.min n (len l)) l)
  = if 0 <=? n then Z.min n (len l) else Z.max 0 (len l + n).
Proof.
  unfold slice_to, len.
  destruct (0 <=? n) eqn:Hn.
  - apply Z.leb_le in Hn.
    assert (H : (0 <=? Z.min n (Z.of_nat (List.length l))) = true)
      by (apply Z.leb_le; lia).
    rewrite H, length_firstn. lia.
  - apply Z.leb_gt in Hn.
    assert (H : (0 <=? Z.min n (Z.of_nat (List.length l))) = false)
      by (apply Z.leb_gt; lia).
    rewrite H, length_firstn. lia.
Qed.

(** X3. A result of [execute] reports the solver's iteration count and
    the two parameters it was called with; its graphs are never
    multigraphs, and there are [min(n, number of subgraphs)] of them
    when [n] is not negative, and as many as are left after dropping
    the last [-n] subgraphs of the ranking when it is. *)
Theorem execute_result_envelope (query_id n h max_iters : Z) (w w' : world)
    (r : query_result) :
  execute query_id n h max_iters w = (Ok r, w') ->
  exists sol,
    solve (select_join (db w) query_id h) h max_iters = Ok sol
    /\ r_iters r = iters sol
    /\ r_hopping_distance r = h
    /\ r_max_iters r = max_iters
    /\ Forall (fun g => is_multigraph g = false) (r_graphs r)
    /\ len (r_graphs r)
       = if 0 <=? n then Z.min n (len (subgraphs sol))
         else Z.max 0 (len (subgraphs sol) + n).
Proof.
  intros H. apply execute_Ok_inv in H.
  destruct H as (sol & scores & qep & tep & _ & _ & Hsol & _ & Hscores
                 & _ & _ & Hgs & Hit & Hh & Hmi).
  exists sol. repeat (split; [ assumption | ]).
  apply mapM_Ok_Forall2 in Hgs. split.
  - apply Forall_forall. intros g Hg.
    assert (Hx : exists x, assemble sol
                   (map Node_to_dict (query_nodes_of query_id (db w))) qep
                   (map Node_to_dict (target_nodes_of query_id (db w))) tep x
                 = Ok g).
    { clear - Hgs Hg. induction Hgs as [ | x g' xs gs Hx _ IH ].
      - destruct Hg.
      - destruct Hg as [<- | Hg]; [ exists x; exact Hx | apply IH, Hg ]. }
    destruct Hx as [x Hx]. apply assemble_multigraph in Hx. exact Hx.
  - rewrite <- (rank_length _ _ (_get_scores_length _ _ _ _ _ Hscores)).
    rewrite <- slice_to_length. unfold len. f_equal. symmetry.
    eapply Forall2_length, Hgs.
Qed.

(** X4. When the other conditions for a result hold but one of the
    subgraphs selected off the ranking is empty, [execute] raises the
    [ValueError] of the failed unpacking, after the optimiser has
    run. *)
Theorem execute_empty_subgraph_raises (query_id n h max_iters : Z) (w : world)
    (sol : solution) (scores : list Q) :
  query_exists query_id (db w) = true ->
  count_matches query_id (db w) <> 0 ->
  solve (select_join (db w) query_id h) h max_iters = Ok sol ->
  _get_scores (inference_costs sol) (query_nodes_of query_id (db w))
    (subgraphs sol) (sz sol) = Ok scores ->
  (exists x,
     In x (slice_to (Z.min n (len (subgraphs sol))) (rank (subgraphs sol) scores))
     /\ nth (fst x) (subgraphs sol) [] = []) ->
  execute query_id n h max_iters w
  = (Raise (ValueError "not enough values to unpack (expected 2, got 0)"),
     after_optimise query_id h max_iters w).
Proof.
  intros Hex Hcount Hsol Hscores [x0 [Hsel Hempty]].
  rewrite (execute_run _ _ _ _ _ Hex Hcount).
  unfold execute_outcome. rewrite Hsol. cbn [rbind]. rewrite Hscores. cbn [rbind].
  destruct (query_edges_payload_defined query_id (db w)) as [qep Hqep].
  rewrite Hqep. cbn [rbind].
  destruct (target_edges_payload_defined query_id (db w) (target_edges_arr sol))
    as [tep Htep].
  rewrite Htep. cbn [rbind].
  pose proof (_get_scores_length _ _ _ _ _ Hscores) as Hlen.
  rewrite (rank_length _ _ Hlen).
  assert (Hkeys : forall S k, In S (subgraphs sol) -> In k S ->
                    exists c, costs_get k (inference_costs sol) = Ok c).
  { unfold _get_scores in Hscores. apply mapM_Ok_Forall2 in Hscores.
    intros S k HS Hk.
    destruct (Forall2_In_l _ _ _ _ Hscores HS) as [score [_ Hscore]].
    apply rbind_Ok_inv in Hscore as [total [Htotal _]].
    unfold sum_costs in Htotal.
    apply rbind_Ok_inv in Htotal as [cs [Hcs _]].
    apply mapM_Ok_Forall2 in Hcs.
    destruct (Forall2_In_l _ _ _ _ Hcs Hk) as [c [_ Hc]].
    exists c. exact Hc. }
  rewrite (mapM_Raise_same _
             (ValueError "not enough values to unpack (expected 2, got 0)"));
    [ reflexivity | | ].
  - intros x Hx. apply slice_to_In in Hx.
    apply (rank_In_subgraph _ _ _ Hlen) in Hx.
    destruct (assemble_cases sol
                (map Node_to_dict (query_nodes_of query_id (db w))) qep
                (map Node_to_dict (target_nodes_of query_id (db w))) tep x
                (fun k Hk => Hkeys _ k Hx Hk))
      as [[_ Hg] | [_ Hraise]]; [ left; exact Hg | right; exact Hraise ].
  - exists x0. split; [ exact Hsel | ].
    unfold assemble. rewrite Hempty. reflexivity.
Qed.

Lemma costs_get_cases (k : Z * Z) (costs : list ((Z * Z) * Q)) :
  (exists c, costs_get k costs = Ok c) \/ costs_get k costs = Raise (KeyError k).
Proof.
  induction costs as [ | [k' c'] costs IH ]; simpl.
  - right. reflexivity.
  - destruct (pair_eqb k k'); [ left; eexists; reflexivity | exact IH ].
Qed.

Lemma mapM_Raise_inv {A B : Type} (f : A -> result B) (l : list A) (e : exn) :
  mapM f l = Raise e -> exists x, In x l /\ f x = Raise e.
Proof.
  induction l as [ | x l IH ]; simpl; intros H.
  - discriminate H.
  - destruct (f x) as [y | e'] eqn:Hx; simpl in H.
    + destruct (mapM f l) as [ys | e'']; simpl in H; [ discriminate H | ].
      injection H as ->. destruct (IH eq_refl) as [z [Hz Hfz]].
      exists z. split; [ right; exact Hz | exact Hfz ].
    + injection H as ->. exists x. split; [ left; reflexivity | exact Hx ].
Qed.

Lemma sum_costs_Raise (costs : list ((Z * Z) * Q)) (S : list (Z * Z)) (e : exn) :
  sum_costs costs S = Raise e -> exists k, In k S /\ e = KeyError k.
Proof.
  unfold sum_costs. intros H.
  destruct (mapM (fun k => costs_get k costs) S) as [cs | e'] eqn:Hm;
    simpl in H; [ discriminate H | ].
  injection H as ->. apply mapM_Raise_inv in Hm as [k [Hk Hraise]].
  exists k. split; [ exact Hk | ].
  destruct (costs_get_cases k costs) as [[c Hc] | Hc]; congruence.
Qed.

(** What [_get_scores] raises: [ZeroDivisionError] once a subgraph
    has been summed and there is no query node, [KeyError] when a pair
    has no cost. *)
Lemma _get_scores_no_nodes (costs : list ((Z * Z) * Q)) (S : list (Z * Z))
    (rest : list (list (Z * Z))) (size : Q) :
  (forall k, In k S -> exists c, costs_get k costs = Ok c) ->
  _get_scores costs [] (S :: rest) size = Raise ZeroDivisionError.
Proof.
  intros Hdef. unfold _get_scores. simpl.
  rewrite (sum_costs_defined _ _ Hdef). reflexivity.
Qed.

Lemma _get_scores_missing_key (costs : list ((Z * Z) * Q))
    (query_nodes : list Node) (sgs : list (list (Z * Z))) (size : Q) :
  query_nodes <> [] ->
  (exists S k, In S sgs /\ In k S /\ costs_get k costs = Raise (KeyError k)) ->
  exists k', _get_scores costs query_nodes sgs size = Raise (KeyError k').
Proof.
  intros Hqn [S [k [HS [Hk Hmiss]]]].
  assert (Hlen : (len query_nodes =? 0) = false).
  { apply Z.eqb_neq. intros H. apply Hqn, len_zero_nil, H. }
  unfold _get_scores.
  destruct (mapM_Raise_with
              (fun subgraph =>
                 rbind (sum_costs costs subgraph) (fun score =>
                 let score := (score + (size - inject_Z (len subgraph)))%Q in
                 if len query_nodes =? 0 then Raise ZeroDivisionError
                 else Ok (score / inject_Z (len query_nodes))%Q))
              (fun e => exists k', e = KeyError k') sgs) as [e [He [k' ->]]].
  - intros S' e He.
    destruct (sum_costs costs S') as [total | e'] eqn:Hsum; simpl in He.
    + rewrite Hlen in He. discriminate He.
    + injection He as ->. apply sum_costs_Raise in Hsum as [k' [_ ->]].
      exists k'. reflexivity.
  - apply Exists_exists. exists S. split; [ exact HS | ].
    unfold sum_costs.
    destruct (mapM_Raise (fun k0 => costs_get k0 costs) S) as [e He].
    { apply Exists_exists. exists k. split; [ exact Hk | ].
      eexists. exact Hmiss. }
    rewrite He. simpl. eexists. reflexivity.
  - exists k'. exact He.
Qed.

(** X5. With matches and a solver that returns, [execute] raises
    [ZeroDivisionError] when the query graph has no node and the first
    subgraph can be summed, and a [KeyError] when the query graph has a
    node and some pair of a subgraph has no entry in the cost table; in
    both cases the optimiser has run. *)
Theorem execute_score_errors (query_id n h max_iters : Z) (w : world)
    (sol : solution) :
  query_exists query_id (db w) = true ->
  count_matches query_id (db w) <> 0 ->
  solve (select_join (db w) query_id h) h max_iters = Ok sol ->
  (select_query_nodes query_id (db w) = [] ->
   (exists S rest,
      subgraphs sol = S :: rest
      /\ forall k, In k S -> exists c, costs_get k (inference_costs sol) = Ok c) ->
   execute query_id n h max_iters w
   = (Raise ZeroDivisionError, after_optimise query_id h max_iters w))
  /\ (select_query_nodes query_id (db w) <> [] ->
      (exists S k,
         In S (subgraphs sol) /\ In k S
         /\ costs_get k (inference_costs sol) = Raise (KeyError k)) ->
      exists k',
        execute query_id n h max_iters w
        = (Raise (KeyError k'), after_optimise query_id h max_iters w)).
Proof.
  intros Hex Hcount Hsol.
  rewrite (execute_run _ _ _ _ _ Hex Hcount).
  unfold execute_outcome. rewrite Hsol. cbn [rbind]. split.
  - intros Hnil (S & rest & Hsgs & Hdef).
    unfold query_nodes_of. rewrite Hnil, Hsgs. cbn [sorted].
    rewrite (_get_scores_no_nodes _ _ _ _ Hdef). reflexivity.
  - intros Hnodes Hmiss.
    destruct (_get_scores_missing_key (inference_costs sol)
                (query_nodes_of query_id (db w)) (subgraphs sol) (sz sol))
      as [k' Hk'].
    + unfold query_nodes_of. intros Hnil. apply Hnodes.
      apply length_zero_iff_nil. rewrite <- (sorted_length Node_lt), Hnil.
      reflexivity.
    + exact Hmiss.
    + exists k'. rewrite Hk'. reflexivity.
Qed.

(** ** Columns of unequal length *)

Lemma zip_longest_length (cols : list (list pyval)) :
  List.length (zip_longest cols)
  = fold_right Nat.max 0%nat (map (@List.length pyval) cols).
Proof. unfold zip_longest. rewrite length_map, length_seq. reflexivity. Qed.

Lemma zip_longest_In (cols : list (list pyval)) (row : list pyval) :
  In row (zip_longest cols) ->
  exists i, (i < List.length (zip_longest cols))%nat
            /\ row = map (fun c => nth i c VNullValue) cols.
Proof.
  intros H. rewrite zip_longest_length. unfold zip_longest in H.
  apply in_map_iff in H as [i [<- Hi]]. apply in_seq in Hi.
  exists i. split; [ simpl in Hi; lia | reflexivity ].
Qed.

(** If no row holds the filler, every column is as long as the
    longest. *)
Lemma zip_longest_full (cols : list (list pyval)) (col : list pyval) :
  (forall row, In row (zip_longest cols) -> ~ In VNullValue row) ->
  In col cols ->
  List.length col = List.length (zip_longest cols).
Proof.
  intros Hfull Hcol.
  assert (Hle : (List.length col <= List.length (zip_longest cols))%nat).
  { rewrite zip_longest_length. apply fold_max_ge. apply in_map. exact Hcol. }
  destruct (Nat.eq_dec (List.length col) (List.length (zip_longest cols)))
    as [Heq | Hne]; [ exact Heq | exfalso ].
  assert (Hlt : (List.length col < List.length (zip_longest cols))%nat) by lia.
  apply (Hfull (map (fun c => nth (List.length col) c VNullValue) cols)).
  - unfold zip_longest. apply in_map_iff. exists (List.length col).
    split; [ reflexivity | ]. apply in_seq.
    rewrite zip_longest_length in Hlt. simpl. lia.
  - apply in_map_iff. exists col. split; [ | exact Hcol ].
    apply nth_overflow. lia.
Qed.

Lemma dict_set_fresh (k : string) (v : pyval) (d : pydict) :
  ~ In k (map fst d) -> dict_set k v d = d ++ [(k, v)].
Proof.
  induction d as [ | [k' v'] d IH ]; simpl; intros Hk.
  - reflexivity.
  - destruct (String.eqb_spec k k') as [-> | _].
    + exfalso. apply Hk. left. reflexivity.
    + rewrite IH by (intros H; apply Hk; right; exact H). reflexivity.
Qed.

Lemma dict_merge_fresh (a b : pydict) :
  NoDup (map fst (a ++ b)) -> dict_merge a b = a ++ b.
Proof.
  unfold dict_merge. revert a.
  induction b as [ | [k v] b IH ]; intros a Hnd; simpl.
  - rewrite app_nil_r. reflexivity.
  - assert (Hrw : a ++ (k, v) :: b = (a ++ [(k, v)]) ++ b)
      by (rewrite <- app_assoc; reflexivity).
    rewrite Hrw in Hnd |- *.
    rewrite dict_set_fresh.
    + apply IH. exact Hnd.
    + rewrite !map_app in Hnd. apply NoDup_app_remove_r in Hnd.
      simpl in Hnd. apply NoDup_remove_2 in Hnd. rewrite app_nil_r in Hnd.
      exact Hnd.
Qed.

Lemma map_fst_combine {A B : Type} (l : list A) (l' : list B) :
  List.length l' = List.length l -> map fst (combine l l') = l.
Proof.
  revert l'. induction l as [ | a l IH ]; intros l' H; simpl.
  - reflexivity.
  - destruct l' as [ | b l' ]; [ discriminate H | ].
    simpl. rewrite IH by (simpl in H; lia). reflexivity.
Qed.

Lemma dict_of_zip_nodup (keys : list string) (values : list pyval) :
  NoDup keys -> List.length values = List.length keys ->
  dict_of_zip keys values = combine keys values.
Proof.
  intros Hnd Hlen. unfold dict_of_zip.
  rewrite dict_merge_fresh; [ reflexivity | ].
  simpl. rewrite map_fst_combine by exact Hlen. exact Hnd.
Qed.

Lemma json_dumps_no_filler (keys : list string) (values : list pyval)
    (meta : pydict) :
  NoDup keys -> List.length values = List.length keys ->
  json_dumps (dict_of_zip keys values) = Ok meta ->
  ~ In VNullValue values.
Proof.
  intros Hnd Hlen H Hin. rewrite (dict_of_zip_nodup _ _ Hnd Hlen) in H.
  unfold json_dumps in H.
  destruct (existsb _ (combine keys values)) eqn:Hex; [ discriminate H | ].
  assert (Htrue : existsb (fun kv : string * pyval =>
                             match snd kv with VNullValue => true | _ => false end)
                    (combine keys values) = true).
  { apply existsb_exists.
    apply In_nth with (d := VNullValue) in Hin as [j [Hj Hnth]].
    exists (nth j keys EmptyString, VNullValue). split; [ | reflexivity ].
    rewrite <- Hnth, <- combine_nth by (symmetry; exact Hlen).
    apply nth_In. rewrite length_combine. lia. }
  congruence.
Qed.

Lemma py_int_filler (z : Z) : py_int VNullValue <> Ok z.
Proof. discriminate. Qed.

Lemma py_float_filler (q : option Q) : py_float VNullValue <> Ok q.
Proof. discriminate. Qed.


Lemma concat_length_const {A : Type} (n : nat) (ls : list (list A)) :
  Forall (fun l => List.length l = n) ls ->
  List.length (List.concat ls) = (n * List.length ls)%nat.
Proof.
  induction 1 as [ | l ls Hl _ IH ]; simpl.
  - lia.
  - rewrite length_app, Hl, IH. lia.
Qed.



(** X7. Integer identifiers are taken modulo [MAX_SIZE]: one below
    [MAX_SIZE] is kept as it is, two that differ by a multiple of
    [MAX_SIZE] hash alike, and [add_edges] refuses an edge whose two
    ends hash alike as a self-loop, storing nothing. *)
Theorem add_edges_modular_ids (graph_id : Z) (w : world) :
  (forall z, 0 <= z < MAX_SIZE -> _hash (KInt z) = z)
  /\ (forall z k, _hash (KInt (z + k * MAX_SIZE)) = _hash (KInt z))
  /\ (forall s t,
        _hash s = _hash t ->
        add_edges graph_id [s] [t] [] w
        = (Raise (InvalidEdgeError "edges must start and end on different nodes"),
           w)).
Proof.
  split; [ | split ].
  - intros z Hz. simpl. apply Z.mod_small. exact Hz.
  - intros z k. simpl. apply Z_mod_plus_full.
  - intros s t Hst.
    unfold add_edges, bind, lift, session_scope, check_reserved, zip_longest,
      hashed.
    cbn -[_hash]. rewrite Hst, Z.eqb_refl. reflexivity.
Qed.

(** ** Matches added, matches counted *)

Lemma match_of_row_shape (query_id qg tg : Z) (keys : list string)
    (row : list pyval) (ms : list model_match) :
  NoDup keys -> List.length row = S (S (S (List.length keys))) ->
  match_of_row query_id qg tg keys row = Ok ms ->
  ~ In VNullValue row
  /\ exists m, ms = [m] /\ m_query_id m = query_id
               /\ m_start_graph_id m = qg /\ m_end_graph_id m = tg.
Proof.
  intros Hnd Hlen H.
  destruct row as [ | s [ | e [ | wt values ] ] ]; try (simpl in Hlen; lia).
  simpl in Hlen. unfold match_of_row in H.
  apply rbind_Ok_inv in H as [meta [Hmeta H]].
  apply check_matches_Ok_inv in H as [-> Hacc].
  inversion Hacc as [ | ? ? [[a Ha] [[b Hb] [q [Hq _]]]] _ ]; subst.
  simpl in Ha, Hb, Hq.
  split.
  - intros [Hs | [He | [Hw | Hin]]].
    + subst s. apply (py_int_filler _ Ha).
    + subst e. apply (py_int_filler _ Hb).
    + subst wt. apply (py_float_filler _ Hq).
    + revert Hin. eapply json_dumps_no_filler; [ exact Hnd | lia | exact Hmeta ].
  - eexists. split; [ reflexivity | ]. repeat split.
Qed.

Lemma add_matches_Ok_inv (query_id : Z) (sources targets : list pykey)
    (weights : list pyval) (kwargs : list (string * list pyval)) (w w' : world) :
  add_matches query_id sources targets weights kwargs w = (Ok tt, w') ->
  query_exists query_id (db w) = true
  /\ exists qg tg rowss,
       mapM (match_of_row query_id qg tg (map fst kwargs))
         (zip_longest
            (hashed sources :: hashed targets :: weights :: map snd kwargs))
       = Ok rowss
       /\ w' = {| db := add_all_matches (List.concat rowss) (db w);
                  calls := calls w |}.
Proof.
  unfold add_matches. unfold bind at 1. rewrite _check_exists_run.
  destruct (query_exists query_id (db w)); [ | discriminate ].
  unfold bind at 1. unfold lift at 1.
  destruct (check_reserved (map fst kwargs)) as [[] | e]; [ | discriminate ].
  unfold bind at 1.
  pose proof (joined_graph_world start_graph_id query_id w) as Hq.
  unfold query_graph.
  destruct (joined_graph start_graph_id query_id w) as [[qg | e] w1];
    simpl in Hq; subst w1; [ | discriminate ].
  unfold bind at 1.
  pose proof (joined_graph_world end_graph_id query_id w) as Ht.
  unfold target_graph.
  destruct (joined_graph end_graph_id query_id w) as [[tg | e] w1];
    simpl in Ht; subst w1; [ | discriminate ].
  unfold session_scope.
  destruct (mapM _ _) as [rowss | e] eqn:Hrows; simpl; [ | discriminate ].
  intros H. injection H as <-.
  split; [ reflexivity | ]. exists qg, tg, rowss.
  split; [ exact Hrows | reflexivity ].
Qed.

Lemma count_matches_app (query_id : Z) (rows : list model_match) (s : store) :
  count_matches query_id (add_all_matches rows s)
  = count_matches query_id s
    + len (filter (fun m => m_query_id m =? query_id) rows).
Proof.
  unfold count_matches, len. simpl. rewrite filter_app, length_app. lia.
Qed.

Lemma filter_all {A : Type} (f : A -> bool) (l : list A) :
  Forall (fun x => f x = true) l -> filter f l = l.
Proof.
  induction 1 as [ | x l Hx _ IH ]; simpl; [ reflexivity | ].
  rewrite Hx, IH. reflexivity.
Qed.

Lemma filter_none {A : Type} (f : A -> bool) (l : list A) :
  Forall (fun x => f x = false) l -> filter f l = [].
Proof.
  induction 1 as [ | x l Hx _ IH ]; simpl; [ reflexivity | ].
  rewrite Hx, IH. reflexivity.
Qed.

(** X8. When [add_matches] returns, the sources, the targets, the
    weights and every keyword column had the same length; the query
    then counts one match more for each source, the counts of the
    other queries and the other tables are as before, and a following
    [execute] on the query gets past its guard to the optimiser as
    soon as one match was given. *)
Theorem add_matches_grows_len (query_id : Z) (sources targets : list pykey)
    (weights : list pyval) (kwargs : list (string * list pyval))
    (w w' : world) :
  NoDup (map fst kwargs) ->
  add_matches query_id sources targets weights kwargs w = (Ok tt, w') ->
  List.length targets = List.length sources
  /\ List.length weights = List.length sources
  /\ Forall (fun kv => List.length (snd kv) = List.length sources) kwargs
  /\ __len__ query_id w'
     = (Ok (count_matches query_id (db w) + len sources), w')
  /\ (forall other, other <> query_id ->
        count_matches other (db w') = count_matches other (db w))
  /\ graphs (db w') = graphs (db w)
  /\ nodes (db w') = nodes (db w)
  /\ edges (db w') = edges (db w)
  /\ queries (db w') = queries (db w)
  /\ (sources <> [] ->
      forall n h max_iters,
        calls (snd (execute query_id n h max_iters w'))
        = calls w ++ [EvJoin query_id h; EvSolve h max_iters]).
Proof.
  intros Hnd H. apply add_matches_Ok_inv in H.
  destruct H as [Hex (qg & tg & rowss & Hmap & ->)].
  apply mapM_Ok_Forall2 in Hmap.
  set (cols := hashed sources :: hashed targets :: weights :: map snd kwargs) in *.
  assert (Hrows : forall row ms,
             In row (zip_longest cols) ->
             match_of_row query_id qg tg (map fst kwargs) row = Ok ms ->
             ~ In VNullValue row
             /\ exists m, ms = [m] /\ m_query_id m = query_id
                          /\ m_start_graph_id m = qg /\ m_end_graph_id m = tg).
  { intros row ms Hrow Hms.
    apply (match_of_row_shape query_id qg tg (map fst kwargs));
      [ exact Hnd | | exact Hms ].
    apply zip_longest_In in Hrow as [i [_ ->]].
    unfold cols. simpl. rewrite !length_map. reflexivity. }
  assert (Hfull : forall row, In row (zip_longest cols) -> ~ In VNullValue row).
  { intros row Hrow.
    destruct (Forall2_In_l _ _ _ _ Hmap Hrow) as [ms [_ Hms]].
    apply (Hrows row ms Hrow Hms). }
  assert (Hsrc : List.length (zip_longest cols) = List.length sources).
  { rewrite <- (zip_longest_full cols (hashed sources) Hfull (or_introl eq_refl)).
    unfold hashed. apply length_map. }
  assert (Hshape : Forall (fun ms => exists m, ms = [m] /\ m_query_id m = query_id)
                     rowss).
  { clear - Hmap Hrows. induction Hmap as [ | row ms rows rowss Hp _ IH ].
    - constructor.
    - constructor.
      + destruct (Hrows row ms (or_introl eq_refl) Hp) as [_ [m [Hm [Hq _]]]].
        exists m. split; assumption.
      + apply IH. intros row' ms' Hrow'. apply Hrows. right. exact Hrow'. }
  assert (Hall : Forall (fun m => m_query_id m = query_id) (List.concat rowss)).
  { apply Forall_forall. intros m Hm. apply in_concat in Hm as [ms [Hms Hm]].
    rewrite Forall_forall in Hshape.
    destruct (Hshape ms Hms) as [m' [-> Hq]].
    destruct Hm as [<- | []]. exact Hq. }
  assert (Hcount : List.length (List.concat rowss) = List.length sources).
  { rewrite (concat_length_const 1).
    - rewrite <- Hsrc, (Forall2_length Hmap). lia.
    - eapply Forall_impl; [ | exact Hshape ].
      intros ms [m [-> _]]. reflexivity. }
  assert (Hnew : count_matches query_id
                   (add_all_matches (List.concat rowss) (db w))
                 = count_matches query_id (db w) + len sources).
  { rewrite count_matches_app. f_equal. unfold len. f_equal.
    rewrite filter_all; [ exact Hcount | ].
    eapply Forall_impl; [ | exact Hall ].
    intros m Hm. apply Z.eqb_eq, Hm. }
  split.
  { rewrite <- Hsrc.
    rewrite <- (zip_longest_full cols (hashed targets) Hfull
                  (or_intror (or_introl eq_refl))).
    unfold hashed. symmetry. apply length_map. }
  split.
  { rewrite <- Hsrc.
    apply (zip_longest_full cols weights Hfull).
    right. right. left. reflexivity. }
  split.
  { apply Forall_forall. intros kv Hkv. rewrite <- Hsrc.
    apply (zip_longest_full cols (snd kv) Hfull).
    right. right. right. apply in_map. exact Hkv. }
  split.
  { rewrite __len___run. cbn [db]. unfold query_exists in *.
    cbn [queries add_all_matches]. rewrite Hex, Hnew. reflexivity. }
  split.
  { intros other Hother. cbn [db]. rewrite count_matches_app.
    rewrite filter_none; [ unfold len; simpl; lia | ].
    eapply Forall_impl; [ | exact Hall ].
    intros m Hm. apply Z.eqb_neq. congruence. }
  repeat (split; [ reflexivity | ]).
  intros Hne n h max_iters.
  rewrite execute_run.
  - reflexivity.
  - exact Hex.
  - cbn [db]. rewrite Hnew.
    assert (0 < len sources).
    { unfold len. destruct sources; [ contradiction | simpl; lia ]. }
    unfold count_matches. lia.
Qed.

(** ** Payloads and metadata *)

Lemma dict_get_set (k k' : string) (v : pyval) (d : pydict) :
  dict_get k (dict_set k' v d)
  = if String.eqb k k' then Some v else dict_get k d.
Proof.
  induction d as [ | [k0 v0] d IH ]; simpl.
  - reflexivity.
  - destruct (String.eqb_spec k' k0) as [-> | Hk0]; simpl.
    + destruct (String.eqb k k0); reflexivity.
    + rewrite IH.
      destruct (String.eqb_spec k k') as [-> | _]; [ | reflexivity ].
      destruct (String.eqb_spec k' k0); [ contradiction | reflexivity ].
Qed.

Lemma dict_get_absent (k : string) (d : pydict) :
  ~ In k (map fst d) -> dict_get k d = None.
Proof.
  induction d as [ | [k0 v0] d IH ]; simpl; intros Hk.
  - reflexivity.
  - destruct (String.eqb_spec k k0) as [-> | _].
    + exfalso. apply Hk. left. reflexivity.
    + apply IH. intros H. apply Hk. right. exact H.
Qed.

Lemma dict_get_merge (k : string) (a b : pydict) :
  NoDup (map fst b) ->
  dict_get k (dict_merge a b)
  = match dict_get k b with Some v => Some v | None => dict_get k a end.
Proof.
  unfold dict_merge. revert a.
  induction b as [ | [k0 v0] b IH ]; intros a Hnd; simpl.
  - reflexivity.
  - inversion Hnd as [ | ? ? Hnotin Hnd' ]; subst.
    rewrite (IH _ Hnd'), dict_get_set.
    destruct (String.eqb_spec k k0) as [-> | _]; [ | reflexivity ].
    rewrite (dict_get_absent _ _ Hnotin). reflexivity.
Qed.

Lemma Edge_to_dict_Some (e : Edge) (meta : pydict) :
  emeta e = Some meta ->
  Edge_to_dict e
  = Ok (dict_merge
          [ ("source", VInt (_hash (KTuple
               [KInt (start e);
                KStr (match etype e with
                      | RMatch => "query"
                      | r => role_name r
                      end)])));
            ("target", VInt (_hash (KTuple
               [KInt (end_ e);
                KStr (match etype e with
                      | RMatch => "target"
                      | r => role_name r
                      end)])));
            ("type", VStr (role_name (etype e)));
            ("weight", VFloat (weight e)) ]
          meta).
Proof.
  intros H. unfold Edge_to_dict. rewrite H.
  destruct (etype e); reflexivity.
Qed.

Lemma node_fields_get (k : string) (a b : pyval) (meta : pydict) :
  NoDup (map fst meta) ->
  dict_get k (dict_merge [ ("id", a); ("type", b) ] meta)
  = match dict_get k meta with
    | Some v => Some v
    | None =>
        if String.eqb k "id" then Some a
        else if String.eqb k "type" then Some b
        else None
    end.
Proof.
  intros Hnd. rewrite (dict_get_merge _ _ _ Hnd).
  destruct (dict_get k meta); reflexivity.
Qed.

Lemma edge_fields_get (k : string) (a b c d : pyval) (meta : pydict) :
  NoDup (map fst meta) ->
  dict_get k
    (dict_merge [ ("source", a); ("target", b); ("type", c); ("weight", d) ]
       meta)
  = match dict_get k meta with
    | Some v => Some v
    | None =>
        if String.eqb k "source" then Some a
        else if String.eqb k "target" then Some b
        else if String.eqb k "type" then Some c
        else if String.eqb k "weight" then Some d
        else None
    end.
Proof.
  intros Hnd. rewrite (dict_get_merge _ _ _ Hnd).
  destruct (dict_get k meta); reflexivity.
Qed.

(** X9. In the payload of a node or an edge a metadata key wins over
    the field of the same name: [id] and [type] of a node, [source],
    [target], [type] and [weight] of an edge are the computed ones only
    where the metadata has no such key, and every other metadata key is
    presented with its value. *)
Theorem to_dict_metadata_wins (k : string) :
  (forall n : Node,
     NoDup (map fst (nmeta n)) ->
     dict_get k (Node_to_dict n)
     = match dict_get k (nmeta n) with
       | Some v => Some v
       | None =>
           if String.eqb k "id"
           then Some (VInt (_hash (KTuple [KInt (nid n);
                                           KStr (role_name (ntype n))])))
           else if String.eqb k "type" then Some (VStr (role_name (ntype n)))
           else None
       end)
  /\ (forall (e : Edge) (meta : pydict),
        emeta e = Some meta -> NoDup (map fst meta) ->
        exists d,
          Edge_to_dict e = Ok d
          /\ dict_get k d
             = match dict_get k meta with
               | Some v => Some v
               | None =>
                   if String.eqb k "source"
                   then Some (VInt (_hash (KTuple
                          [KInt (start e);
                           KStr (match etype e with
                                 | RMatch => "query"
                                 | r => role_name r
                                 end)])))
                   else if String.eqb k "target"
                   then Some (VInt (_hash (KTuple
                          [KInt (end_ e);
                           KStr (match etype e with
                                 | RMatch => "target"
                                 | r => role_name r
                                 end)])))
                   else if String.eqb k "type"
                   then Some (VStr (role_name (etype e)))
                   else if String.eqb k "weight" then Some (VFloat (weight e))
                   else None
               end).
Proof.
  split.
  - intros n Hnd. unfold Node_to_dict. apply node_fields_get, Hnd.
  - intros e meta Hmeta Hnd.
    eexists. split; [ apply Edge_to_dict_Some, Hmeta | ].
    apply edge_fields_get, Hnd.
Qed.

(** ** The sorted reads and the order of the rows *)

Lemma filter_Permutation {A : Type} (f : A -> bool) (l l' : list A) :
  Permutation l l' -> Permutation (filter f l) (filter f l').
Proof.
  induction 1 as [ | x l l' _ IH | x y l | l l' l'' _ IH1 _ IH2 ]; simpl.
  - constructor.
  - destruct (f x); [ apply perm_skip | ]; exact IH.
  - destruct (f x), (f y); try apply Permutation_refl. apply perm_swap.
  - eapply perm_trans; eassumption.
Qed.

Lemma NoDup_map_same {A B : Type} (f : A -> B) (l : list A) (x y : A) :
  NoDup (map f l) -> In x l -> In y l -> f x = f y -> x = y.
Proof.
  induction l as [ | a l IH ]; simpl; intros Hnd Hx Hy Hf; [ contradiction | ].
  inversion Hnd as [ | ? ? Hnotin Hnd' ]; subst.
  destruct Hx as [-> | Hx], Hy as [-> | Hy].
  - reflexivity.
  - exfalso. apply Hnotin. rewrite Hf. apply in_map, Hy.
  - exfalso. apply Hnotin. rewrite <- Hf. apply in_map, Hx.
  - apply IH; assumption.
Qed.

Lemma insert_sorted_agree {A : Type} (lt lt' : A -> A -> bool) (x : A)
    (l : list A) :
  (forall y, In y l -> lt y x = lt' y x) ->
  insert_sorted lt x l = insert_sorted lt' x l.
Proof.
  induction l as [ | y l IH ]; simpl; intros H; [ reflexivity | ].
  rewrite (H y (or_introl eq_refl)).
  destruct (lt' y x); [ | reflexivity ].
  f_equal. apply IH. intros z Hz. apply H. right. exact Hz.
Qed.

Lemma sorted_agree {A : Type} (lt lt' : A -> A -> bool) (l : list A) :
  (forall x y, In x l -> In y l -> lt x y = lt' x y) ->
  sorted lt l = sorted lt' l.
Proof.
  induction l as [ | x l IH ]; simpl; intros H; [ reflexivity | ].
  rewrite IH by (intros a b Ha Hb; apply H; right; assumption).
  apply insert_sorted_agree. intros y Hy.
  apply (proj1 (sorted_In lt' y l)) in Hy.
  apply H; [ right; exact Hy | left; reflexivity ].
Qed.

Lemma sorted_unique_on {A : Type} (R : A -> A -> Prop) (l1 l2 : list A) :
  (forall x y, In x l1 -> In y l1 -> R x y -> R y x -> x = y) ->
  StronglySorted R l1 -> StronglySorted R l2 -> Permutation l1 l2 -> l1 = l2.
Proof.
  revert l2.
  induction l1 as [ | a l1 IH ]; intros l2 Hanti H1 H2 Hp.
  - apply Permutation_nil in Hp. symmetry. exact Hp.
  - destruct l2 as [ | b l2 ].
    + apply Permutation_sym, Permutation_nil in Hp. discriminate Hp.
    + inversion H1 as [ | ? ? H1' Ha ]; subst.
      inversion H2 as [ | ? ? H2' Hb ]; subst.
      rewrite Forall_forall in Ha, Hb.
      assert (Hab : a = b).
      { assert (Hin : In a (b :: l2))
          by (apply (Permutation_in _ Hp); left; reflexivity).
        assert (Hin' : In b (a :: l1))
          by (apply (Permutation_in _ (Permutation_sym Hp)); left; reflexivity).
        destruct Hin as [Hba | Hin]; [ symmetry; exact Hba | ].
        destruct Hin' as [Hab | Hin']; [ exact Hab | ].
        apply Hanti.
        - left. reflexivity.
        - right. exact Hin'.
        - apply Ha, Hin'.
        - apply Hb, Hin. }
      subst b. f_equal.
      apply IH; [ | exact H1' | exact H2' | exact (Permutation_cons_inv Hp) ].
      intros x y Hx Hy. apply Hanti; right; assumption.
Qed.

Lemma StronglySorted_True {A : Type} (l : list A) :
  StronglySorted (fun _ _ => True) l.
Proof.
  induction l as [ | x l IH ]; constructor; [ exact IH | ].
  apply Forall_forall. intros; exact I.
Qed.

Lemma sorted_perm_eq {A : Type} (lt lt' : A -> A -> bool) (l1 l2 : list A) :
  (forall x y, In x l1 -> In y l1 -> lt x y = lt' x y) ->
  (forall a b c, lt' a c = true -> lt' a b = true \/ lt' b c = true) ->
  (forall a b, lt' a b = true -> lt' b a = false) ->
  (forall x y, In x l1 -> In y l1 ->
     lt' x y = false -> lt' y x = false -> x = y) ->
  Permutation l1 l2 -> sorted lt l1 = sorted lt l2.
Proof.
  intros Hagree Hco Hasym Hanti Hp.
  rewrite (sorted_agree lt lt' l1 Hagree).
  rewrite (sorted_agree lt lt' l2).
  2:{ intros x y Hx Hy.
      apply Hagree; apply (Permutation_in _ (Permutation_sym Hp)); assumption. }
  assert (Hs : forall l, StronglySorted (fun x y => lt' y x = false)
                           (sorted lt' l)).
  { intros l.
    apply (StronglySorted_impl (stable_before lt' (fun _ _ => True))).
    - intros x y [H | [H _]]; [ apply Hasym, H | exact H ].
    - apply (sorted_stable lt' Hco), StronglySorted_True. }
  apply (sorted_unique_on (fun x y => lt' y x = false)).
  - intros x y Hx Hy Hxy Hyx.
    apply Hanti; try assumption;
      apply (proj1 (sorted_In lt' _ l1)); assumption.
  - apply Hs.
  - apply Hs.
  - eapply perm_trans; [ apply sorted_perm | ].
    eapply perm_trans; [ exact Hp | ].
    apply Permutation_sym, sorted_perm.
Qed.

Lemma nodes_sorted_same (g : Z) (r : role) (l l' : list node_row) :
  NoDup (map node_key l) -> Permutation l l' ->
  sorted Node_lt
    (map (fun n => {| nid := node_id n; ntype := r; nmeta := n_meta n |})
       (filter (fun n => n_graph_id n =? g) l))
  = sorted Node_lt
      (map (fun n => {| nid := node_id n; ntype := r; nmeta := n_meta n |})
         (filter (fun n => n_graph_id n =? g) l')).
Proof.
  intros Hnd Hp.
  apply (sorted_perm_eq Node_lt (fun a b => nid a <? nid b)).
  - intros x y Hx Hy.
    apply in_map_iff in Hx as [rx [<- _]].
    apply in_map_iff in Hy as [ry [<- _]].
    unfold Node_lt. cbn [ntype nid]. rewrite String.eqb_refl. reflexivity.
  - intros a b c H. apply Z.ltb_lt in H.
    destruct (Z.ltb_spec (nid a) (nid b)); [ left; reflexivity | ].
    right. apply Z.ltb_lt. lia.
  - intros a b H. apply Z.ltb_lt in H. apply Z.ltb_ge. lia.
  - intros x y Hx Hy Hxy Hyx.
    apply in_map_iff in Hx as [rx [<- Hrx]].
    apply in_map_iff in Hy as [ry [<- Hry]].
    apply filter_In in Hrx as [Hrx Hgx], Hry as [Hry Hgy].
    cbn [nid] in Hxy, Hyx.
    apply Z.ltb_ge in Hxy, Hyx. apply Z.eqb_eq in Hgx, Hgy.
    assert (rx = ry) as ->; [ | reflexivity ].
    apply (NoDup_map_same node_key l); try assumption.
    unfold node_key. f_equal; lia.
  - apply Permutation_map, filter_Permutation, Hp.
Qed.

Lemma Edge_lt_ends_cotrans (a b c : Edge) :
  Edge_lt_ends a c = true ->
  Edge_lt_ends a b = true \/ Edge_lt_ends b c = true.
Proof.
  unfold Edge_lt_ends.
  destruct (Z.eqb_spec (start a) (start c)),
           (Z.eqb_spec (start a) (start b)),
           (Z.eqb_spec (start b) (start c));
    rewrite ?Z.ltb_lt; try lia;
    destruct (Z.ltb_spec (end_ a) (end_ b));
    destruct (Z.ltb_spec (start a) (start b));
    try (left; reflexivity); try lia; intros; right; lia.
Qed.

Lemma Edge_lt_ends_asym (a b : Edge) :
  Edge_lt_ends a b = true -> Edge_lt_ends b a = false.
Proof.
  unfold Edge_lt_ends.
  destruct (Z.eqb_spec (start a) (start b)),
           (Z.eqb_spec (start b) (start a));
    rewrite ?Z.ltb_lt, ?Z.ltb_ge; lia.
Qed.

Lemma Edge_lt_ends_tie (a b : Edge) :
  Edge_lt_ends a b = false -> Edge_lt_ends b a = false ->
  start a = start b /\ end_ a = end_ b.
Proof.
  unfold Edge_lt_ends.
  destruct (Z.eqb_spec (start a) (start b)),
           (Z.eqb_spec (start b) (start a));
    rewrite ?Z.ltb_ge; lia.
Qed.

Lemma edges_sorted_same (g : Z) (r : role) (l1 l2 : list edge_row) :
  (forall e, In e l1 -> e_graph_id e = g) ->
  (forall e e', In e l1 -> In e' l1 -> edge_key e = edge_key e' -> e = e') ->
  Permutation l1 l2 ->
  sorted Edge_lt
    (map (fun e => mkEdge (e_start e) (e_end e) r (Some (e_meta e))) l1)
  = sorted Edge_lt
      (map (fun e => mkEdge (e_start e) (e_end e) r (Some (e_meta e))) l2).
Proof.
  intros Hg Hkey Hp.
  apply (sorted_perm_eq Edge_lt Edge_lt_ends).
  - intros x y Hx Hy.
    apply in_map_iff in Hx as [rx [<- _]].
    apply in_map_iff in Hy as [ry [<- _]].
    unfold Edge_lt, Edge_lt_ends, mkEdge. cbn [etype start end_].
    rewrite String.eqb_refl. reflexivity.
  - apply Edge_lt_ends_cotrans.
  - apply Edge_lt_ends_asym.
  - intros x y Hx Hy Hxy Hyx.
    destruct (Edge_lt_ends_tie _ _ Hxy Hyx) as [Hs He].
    apply in_map_iff in Hx as [rx [<- Hrx]].
    apply in_map_iff in Hy as [ry [<- Hry]].
    unfold mkEdge in Hs, He. cbn [start end_] in Hs, He.
    assert (rx = ry) as ->; [ | reflexivity ].
    apply Hkey; try assumption.
    unfold edge_key. rewrite (Hg rx Hrx), (Hg ry Hry), Hs, He. reflexivity.
  - apply Permutation_map, Hp.
Qed.

(** X10. The four sorted lists [execute] works on do not depend on the
    order in which the rows of the nodes and of the edges are kept:
    with one row per node of a graph, per edge of a graph and per query
    identifier, two databases with the same rows give the same sorted
    query nodes, target nodes, query edges and target edges. *)
Theorem sorted_reads_ignore_row_order (query_id : Z) (s s' : store)
    (arr : list arr_row) :
  NoDup (map q_query_id (queries s)) ->
  NoDup (map node_key (nodes s)) ->
  NoDup (map edge_key (edges s)) ->
  queries s' = queries s ->
  Permutation (nodes s) (nodes s') ->
  Permutation (edges s) (edges s') ->
  query_nodes_of query_id s' = query_nodes_of query_id s
  /\ target_nodes_of query_id s' = target_nodes_of query_id s
  /\ query_edges_of query_id s' = query_edges_of query_id s
  /\ target_edges_of query_id s' arr = target_edges_of query_id s arr.
Proof.
  intros Hq Hn He Hqs Hpn Hpe.
  assert (Hrows : query_rows query_id s' = query_rows query_id s).
  { unfold query_rows. rewrite Hqs. reflexivity. }
  assert (Hkey : forall e e', In e (edges s) -> In e' (edges s) ->
                   edge_key e = edge_key e' -> e = e').
  { intros e e'. apply (NoDup_map_same edge_key (edges s) e e' He). }
  assert (Htn : target_nodes_of query_id s' = target_nodes_of query_id s).
  { unfold target_nodes_of, select_target_nodes. rewrite Hrows.
    destruct (query_rows_unique query_id s Hq) as [-> | [q ->]];
      [ reflexivity | ].
    cbn [flat_map]. rewrite !app_nil_r. symmetry.
    apply nodes_sorted_same; assumption. }
  split; [ | split; [ exact Htn | split ] ].
  - unfold query_nodes_of, select_query_nodes. rewrite Hrows.
    destruct (query_rows_unique query_id s Hq) as [-> | [q ->]];
      [ reflexivity | ].
    cbn [flat_map]. rewrite !app_nil_r. symmetry.
    apply nodes_sorted_same; assumption.
  - unfold query_edges_of, select_query_edges. rewrite Hrows.
    destruct (query_rows_unique query_id s Hq) as [-> | [q ->]];
      [ reflexivity | ].
    cbn [flat_map]. rewrite !app_nil_r. symmetry.
    apply (edges_sorted_same (start_graph_id q)).
    + intros e Hin. apply filter_In in Hin as [_ Hin].
      apply andb_prop in Hin as [Hin _]. apply Z.eqb_eq, Hin.
    + intros e e' Hin Hin'. apply filter_In in Hin as [Hin _], Hin' as [Hin' _].
      apply Hkey; assumption.
    + apply filter_Permutation, Hpe.
  - unfold target_edges_of, select_target_edges. rewrite Htn, Hrows.
    destruct (query_rows_unique query_id s Hq) as [-> | [q ->]];
      [ reflexivity | ].
    cbn [flat_map]. rewrite !app_nil_r. symmetry.
    apply (edges_sorted_same (end_graph_id q)).
    + intros e Hin. apply nodup_In, filter_In in Hin as [_ Hin].
      apply andb_prop in Hin as [Hin _]. apply andb_prop in Hin as [Hin _].
      apply andb_prop in Hin as [Hin _]. apply Z.eqb_eq, Hin.
    + intros e e' Hin Hin'.
      apply nodup_In, filter_In in Hin as [Hin _].
      apply nodup_In, filter_In in Hin' as [Hin' _].
      apply Hkey; assumption.
    + apply NoDup_Permutation; try apply NoDup_nodup.
      intros e. rewrite !nodup_In. split; apply Permutation_in;
        [ | apply Permutation_sym ]; apply filter_Permutation, Hpe.
Qed.

(** ** Handles: identifiers drawn, rows deleted *)

Lemma GraphHandle__check_exists_run (graph_id : Z) (w : world) :
  GraphHandle__check_exists graph_id w =
  if graph_exists graph_id (db w) then (Ok tt, w)
  else (Raise (ValueError ("cannot read graph with graph id: "
                           ++ str_of_Z graph_id)), w).
Proof.
  unfold GraphHandle__check_exists, bind, read, ret, raise.
  destruct (graph_exists graph_id (db w)); reflexivity.
Qed.

Lemma GraphHandle_run (graph_id : Z) (w : world) :
  GraphHandle graph_id w =
  if graph_exists graph_id (db w) then (Ok graph_id, w)
  else (Raise (ValueError ("cannot read graph with graph id: "
                           ++ str_of_Z graph_id)), w).
Proof.
  unfold GraphHandle, bind. rewrite GraphHandle__check_exists_run.
  destruct (graph_exists graph_id (db w)); reflexivity.
Qed.

Lemma fold_left_max_ge (l : list Z) (x : Z) :
  x <= fold_left Z.max l x
  /\ forall y, In y l -> y <= fold_left Z.max l x.
Proof.
  revert x. induction l as [ | a l IH ]; intros x; simpl.
  - split; [ lia | intros y [] ].
  - destruct (IH (Z.max x a)) as [H1 H2].
    split; [ lia | ].
    intros y [<- | Hy]; [ lia | apply H2, Hy ].
Qed.

Lemma next_id_above (column : list Z) (x : Z) :
  In x column -> x < next_id column.
Proof.
  unfold next_id, sql_max. destruct column as [ | a l ]; [ intros [] | ].
  destruct (fold_left_max_ge l a) as [H1 H2].
  intros [<- | Hx]; [ lia | specialize (H2 x Hx); lia ].
Qed.

Lemma next_id_fresh (column : list Z) : ~ In (next_id column) column.
Proof. intros H. apply next_id_above in H. lia. Qed.

Lemma existsb_eqb_In (x : Z) (l : list Z) :
  existsb (fun g => g =? x) l = true <-> In x l.
Proof.
  rewrite existsb_exists. split.
  - intros [g [Hg Heq]]. apply Z.eqb_eq in Heq. subst g. exact Hg.
  - intros H. exists x. split; [ exact H | apply Z.eqb_refl ].
Qed.

Lemma graph_exists_In (graph_id : Z) (s : store) :
  graph_exists graph_id s = true <-> In graph_id (graphs s).
Proof. apply existsb_eqb_In. Qed.


Lemma filter_other (x : Z) (l : list Z) :
  ~ In x l -> filter (fun g => negb (g =? x)) l = l.
Proof.
  intros H. apply filter_all. apply Forall_forall. intros g Hg.
  apply negb_true_iff, Z.eqb_neq. intros ->. apply H, Hg.
Qed.

Lemma GraphHandle_create_run (w : world) :
  GraphHandle_create w
  = (Ok (next_id (graphs (db w))),
     {| db := {| graphs := graphs (db w) ++ [next_id (graphs (db w))];
                 nodes := nodes (db w); edges := edges (db w);
                 queries := queries (db w); matches := matches (db w) |};
        calls := calls w |}).
Proof.
  unfold GraphHandle_create. unfold bind at 1. unfold read at 1.
  unfold bind at 1. unfold session_scope at 1. cbn [db calls].
  rewrite GraphHandle_run.
  replace (graph_exists _ _) with true; [ reflexivity | ].
  symmetry. apply graph_exists_In. cbn [db graphs].
  apply in_or_app. right. left. reflexivity.
Qed.

Lemma GraphHandle_delete_run (graph_id : Z) (w : world) :
  GraphHandle_delete graph_id w =
  if graph_exists graph_id (db w)
  then (Ok tt,
        {| db := {| graphs := filter (fun g => negb (g =? graph_id))
                                (graphs (db w));
                    nodes := filter (fun n => negb (n_graph_id n =? graph_id))
                               (nodes (db w));
                    edges := filter (fun e => negb (e_graph_id e =? graph_id))
                               (edges (db w));
                    queries := queries (db w); matches := matches (db w) |};
           calls := calls w |})
  else (Raise (ValueError ("cannot read graph with graph id: "
                           ++ str_of_Z graph_id)), w).
Proof.
  unfold GraphHandle_delete, bind. rewrite GraphHandle__check_exists_run.
  destruct (graph_exists graph_id (db w)); reflexivity.
Qed.


(** X11. [GraphHandle.create] always returns: the identifier it draws
    is above every identifier in use (0 on an empty table), the graph
    is added to the table and nothing else changes, the new handle can
    be read back and has no nodes once no row is left over from an
    earlier graph, and every graph that could be read before still
    can. *)
Theorem GraphHandle_create_fresh (w : world) :
  exists g w',
    GraphHandle_create w = (Ok g, w')
    /\ (forall g', In g' (graphs (db w)) -> g' < g)
    /\ (graphs (db w) = [] -> g = 0)
    /\ graphs (db w') = graphs (db w) ++ [g]
    /\ nodes (db w') = nodes (db w) /\ edges (db w') = edges (db w)
    /\ queries (db w') = queries (db w) /\ matches (db w') = matches (db w)
    /\ calls w' = calls w
    /\ GraphHandle_read g w' = (Ok g, w')
    /\ ((forall n, In n (nodes (db w)) -> In (n_graph_id n) (graphs (db w))) ->
        GraphHandle___len__ g w' = (Ok 0, w'))
    /\ (forall g', GraphHandle_read g' w = (Ok g', w) ->
                   GraphHandle_read g' w' = (Ok g', w')).
Proof.
  eexists. eexists. split; [ apply GraphHandle_create_run | ].
  cbn [db calls graphs nodes edges queries matches].
  split; [ intros g'; apply next_id_above | ].
  split; [ intros ->; reflexivity | ].
  repeat (split; [ reflexivity | ]).
  split; [ | split ].
  - unfold GraphHandle_read. rewrite GraphHandle_run.
    replace (graph_exists _ _) with true; [ reflexivity | ].
    symmetry. apply graph_exists_In. cbn [db graphs].
    apply in_or_app. right. left. reflexivity.
  - intros Hfk. unfold GraphHandle___len__, read. cbn [db nodes].
    rewrite filter_none; [ reflexivity | ].
    apply Forall_forall. intros n Hn. apply Z.eqb_neq. intros Heq.
    apply (next_id_fresh (graphs (db w))). rewrite <- Heq. apply Hfk, Hn.
  - intros g'. unfold GraphHandle_read. rewrite !GraphHandle_run.
    destruct (graph_exists g' (db w)) eqn:Hex; [ | discriminate ].
    intros _. replace (graph_exists _ _) with true; [ reflexivity | ].
    symmetry. apply graph_exists_In. cbn [db graphs].
    apply in_or_app. left. apply graph_exists_In, Hex.
Qed.


(** X13. Identifiers are drawn again: when the graph just created is
    deleted, the next [create] returns the identifier of the deleted
    graph, so that a handle kept on it reads the new graph. *)
Theorem GraphHandle_id_drawn_again (w w1 w2 : world) (g : Z) :
  GraphHandle_create w = (Ok g, w1) ->
  GraphHandle_delete g w1 = (Ok tt, w2) ->
  graphs (db w2) = graphs (db w)
  /\ exists w3,
       GraphHandle_create w2 = (Ok g, w3)
       /\ GraphHandle_read g w3 = (Ok g, w3).
Proof.
  rewrite GraphHandle_create_run. intros H. injection H as <- <-.
  rewrite GraphHandle_delete_run. cbn [db].
  destruct (graph_exists _ _); [ | discriminate ].
  intros H. injection H as <-. cbn [db graphs].
  assert (Hback : filter (fun g => negb (g =? next_id (graphs (db w))))
                    (graphs (db w) ++ [next_id (graphs (db w))])
                  = graphs (db w)).
  { rewrite filter_app. simpl. rewrite Z.eqb_refl. simpl.
    rewrite app_nil_r. apply filter_other, next_id_fresh. }
  split; [ exact Hback | ].
  eexists. rewrite GraphHandle_create_run. cbn [db graphs]. rewrite Hback.
  split; [ reflexivity | ].
  unfold GraphHandle_read. rewrite GraphHandle_run.
  replace (graph_exists _ _) with true; [ reflexivity | ].
  symmetry. apply graph_exists_In. cbn [db graphs].
  apply in_or_app. right. left. reflexivity.
Qed.

Lemma find_none_iff {A : Type} (f : A -> bool) (l : list A) :
  (forall x, In x l -> f x = false) -> find f l = None.
Proof.
  induction l as [ | a l IH ]; simpl; intros H; [ reflexivity | ].
  rewrite (H a (or_introl eq_refl)). apply IH.
  intros x Hx. apply H. right. exact Hx.
Qed.

Lemma joined_graph_run (col : query_row -> Z) (query_id : Z) (w : world) :
  query_exists query_id (db w) = true ->
  joined_graph col query_id w
  = (match find (fun g => existsb (fun q => g =? col q)
                            (query_rows query_id (db w)))
             (graphs (db w)) with
     | Some graph_id => Ok graph_id
     | None => Raise (AttributeError
                        "'NoneType' object has no attribute 'graph_id'")
     end, w).
Proof.
  intros Hex. unfold joined_graph, bind. rewrite _check_exists_run, Hex.
  unfold read. destruct (find _ _); reflexivity.
Qed.

(** X14. Deleting a graph does not reach the queries made on it: a
    query whose query graph has been deleted is still there and still
    counts its matches, but it has no query nodes and no query edges
    left, and [query_graph] raises an [AttributeError] on it. *)
Theorem query_outlives_its_graph (query_id graph_id : Z) (w w' : world) :
  query_exists query_id (db w) = true ->
  (forall q, In q (query_rows query_id (db w)) -> start_graph_id q = graph_id) ->
  GraphHandle_delete graph_id w = (Ok tt, w') ->
  __len__ query_id w' = (Ok (count_matches query_id (db w)), w')
  /\ query_nodes_of query_id (db w') = []
  /\ query_edges_of query_id (db w') = []
  /\ query_graph query_id w'
     = (Raise (AttributeError "'NoneType' object has no attribute 'graph_id'"),
        w').
Proof.
  intros Hex Hrows. rewrite GraphHandle_delete_run.
  destruct (graph_exists graph_id (db w)); [ | discriminate ].
  intros H. injection H as <-.
  split; [ rewrite __len___run; cbn [db]; unfold query_exists in *;
           cbn [queries]; rewrite Hex; reflexivity | ].
  assert (Hnone : forall (A : Type) (f : query_row -> list A),
             (forall q, start_graph_id q = graph_id -> f q = []) ->
             flat_map f (query_rows query_id (db w)) = []).
  { intros A f Hf. induction (query_rows query_id (db w)) as [ | q l IH ];
      simpl; [ reflexivity | ].
    rewrite Hf by (apply Hrows; left; reflexivity).
    apply IH. intros q' Hq'. apply Hrows. right. exact Hq'. }
  split; [ | split ].
  - unfold query_nodes_of, select_query_nodes, query_rows. cbn [queries nodes].
    fold (query_rows query_id (db w)).
    rewrite (Hnone Node); [ reflexivity | ].
    intros q ->. rewrite filter_none; [ reflexivity | ].
    apply Forall_forall. intros n Hn. apply filter_In in Hn as [_ Hn].
    apply negb_true_iff in Hn. exact Hn.
  - unfold query_edges_of, select_query_edges, query_rows. cbn [queries edges].
    fold (query_rows query_id (db w)).
    rewrite (Hnone Edge); [ reflexivity | ].
    intros q ->. rewrite filter_none; [ reflexivity | ].
    apply Forall_forall. intros e He. apply filter_In in He as [_ He].
    apply negb_true_iff in He. rewrite He. reflexivity.
  - unfold query_graph. rewrite joined_graph_run by exact Hex.
    cbn [db graphs]. unfold query_rows. cbn [queries].
    fold (query_rows query_id (db w)).
    rewrite find_none_iff; [ reflexivity | ].
    intros g Hg. apply filter_In in Hg as [_ Hg].
    apply negb_true_iff, Z.eqb_neq in Hg.
    destruct (existsb _ _) eqn:Hx; [ | reflexivity ].
    apply existsb_exists in Hx as [q [Hq Heq]].
    apply Z.eqb_eq in Heq. rewrite (Hrows q Hq) in Heq. contradiction.
Qed.









(** ** Nodes added *)

Lemma node_mapM_Checked_inv {A B : Type} (f : A -> node_result B)
    (l : list A) (l' : list B) :
  node_mapM f l = Checked l' -> Forall2 (fun x y => f x = Checked y) l l'.
Proof.
  revert l'. induction l as [ | x l IH ]; intros l'; simpl; intros H.
  - injection H as <-. constructor.
  - destruct (f x) as [y | e] eqn:Hx; [ | discriminate H ].
    destruct (node_mapM f l) as [ys | e]; [ | discriminate H ].
    injection H as <-. constructor; [ exact Hx | apply IH; reflexivity ].
Qed.

Lemma node_mapM_Refused_inv {A B : Type} (f : A -> node_result B)
    (l : list A) (e : node_exn) :
  node_mapM f l = Refused e -> exists x, In x l /\ f x = Refused e.
Proof.
  induction l as [ | x l IH ]; simpl; intros H; [ discriminate H | ].
  destruct (f x) as [y | e'] eqn:Hx.
  - destruct (node_mapM f l) as [ys | e'']; [ discriminate H | ].
    injection H as ->. destruct (IH eq_refl) as [z [Hz Hfz]].
    exists z. split; [ right; exact Hz | exact Hfz ].
  - injection H as ->. exists x. split; [ left; reflexivity | exact Hx ].
Qed.

Lemma node_mapM_map {A B C : Type} (f : B -> node_result C) (h : A -> B)
    (l : list A) :
  node_mapM f (map h l) = node_mapM (fun x => f (h x)) l.
Proof.
  induction l as [ | x l IH ]; simpl; [ reflexivity | ].
  rewrite IH. reflexivity.
Qed.

Lemma node_mapM_agree {A B : Type} (f f' : A -> node_result B) (l : list A) :
  (forall x, In x l -> f x = f' x) -> node_mapM f l = node_mapM f' l.
Proof.
  induction l as [ | x l IH ]; simpl; intros H; [ reflexivity | ].
  rewrite (H x (or_introl eq_refl)).
  rewrite IH by (intros y Hy; apply H; right; exact Hy). reflexivity.
Qed.

Lemma _hash_bounds (item : pykey) : 0 <= _hash item < MAX_SIZE.
Proof.
  destruct item; simpl; apply Z.mod_pos_bound, MAX_SIZE_pos.
Qed.

Lemma check_node_hashed (item : pykey) (graph_id : Z) (meta : pydict) :
  check_node {| mn_node_id := VInt (_hash item); mn_graph_id := graph_id;
                mn_meta := meta |}
  = Checked {| mn_node_id := VInt (_hash item); mn_graph_id := graph_id;
               mn_meta := meta |}.
Proof.
  pose proof (_hash_bounds item) as Hb.
  unfold check_node. cbn [mn_node_id py_int].
  destruct (String.eqb DB_URL "sqlite://") eqn:Hurl;
    [ | rewrite andb_false_r; reflexivity ].
  replace (SQLITE_MAX_SIZE <? _hash item) with false; [ reflexivity | ].
  symmetry. apply Z.ltb_ge.
  unfold MAX_SIZE in Hb. rewrite Hurl in Hb. lia.
Qed.



Lemma combine_with_map {A B : Type} (f : A -> B) (l : list A) :
  combine l (map f l) = map (fun x => (x, f x)) l.
Proof.
  induction l as [ | x l IH ]; simpl; [ reflexivity | ].
  rewrite IH. reflexivity.
Qed.

Lemma nth_error_map_seq {A : Type} (f : nat -> A) (n i : nat) :
  (i < n)%nat -> nth_error (map f (seq 0 n)) i = Some (f i).
Proof.
  intros Hi. rewrite nth_error_map, nth_error_seq.
  destruct (Nat.ltb_spec i n); [ reflexivity | lia ].
Qed.


Lemma combine_columns (kwargs : list (string * list pyval)) (i : nat) :
  combine (map fst kwargs) (map (fun c => nth i c VNullValue) (map snd kwargs))
  = map (fun kv => (fst kv, nth i (snd kv) VNullValue)) kwargs.
Proof.
  induction kwargs as [ | kv l IH ]; simpl; [ reflexivity | ].
  rewrite IH. reflexivity.
Qed.

Lemma kwargs_get_In (key : string) (kwargs : list (string * list pyval))
    (col : list pyval) :
  kwargs_get key kwargs = Some col -> In (key, col) kwargs.
Proof.
  unfold kwargs_get. destruct (find _ kwargs) as [[k c] | ] eqn:Hf;
    [ | discriminate ].
  simpl. intros H. injection H as <-.
  apply find_some in Hf as [Hin Heq]. simpl in Heq.
  apply String.eqb_eq in Heq. subst k. exact Hin.
Qed.

(** The key hashed for the row of index [i]. *)
Lemma add_nodes_zipped (str_of_float : Q -> string) (str_of_NullValue : string)
    (kwargs : list (string * list pyval)) :
  let cols := map snd kwargs in
  let n := List.length (zip_longest cols) in
  match kwargs_get "id_src" kwargs with
  | Some id_src =>
      map (fun x => (hashable str_of_float str_of_NullValue (fst x), snd x))
        (zip_ids id_src (zip_longest cols))
  | None =>
      map (fun x => (KInt (Z.of_nat (fst x)), Some (snd x)))
        (enumerate (zip_longest cols))
  end
  = map (fun i =>
           (match kwargs_get "id_src" kwargs with
            | Some id_src =>
                hashable str_of_float str_of_NullValue (nth i id_src VNullValue)
            | None => KInt (Z.of_nat i)
            end,
            Some (map (fun c => nth i c VNullValue) cols)))
      (seq 0 n).
Proof.
  intros cols n.
  assert (Hrows : zip_longest cols
                  = map (fun i => map (fun c => nth i c VNullValue) cols)
                      (seq 0 n)).
  { unfold n. rewrite zip_longest_length. reflexivity. }
  destruct (kwargs_get "id_src" kwargs) as [id_src | ] eqn:Hget.
  - unfold zip_ids. rewrite map_map. cbn [fst snd].
    assert (Hle : (List.length id_src <= n)%nat).
    { unfold n. rewrite zip_longest_length. apply fold_max_ge.
      apply in_map. apply kwargs_get_In in Hget.
      apply (in_map snd) in Hget. exact Hget. }
    fold n. rewrite (Nat.max_r _ _ Hle).
    apply map_ext_in. intros i Hi. apply in_seq in Hi. f_equal.
    rewrite Hrows.
    apply (nth_error_map_seq
             (fun j => map (fun c : list pyval => nth j c VNullValue) cols)).
    lia.
  - unfold enumerate. fold n. rewrite Hrows at 1.
    rewrite combine_with_map, map_map. reflexivity.
Qed.

Lemma existsb_of_map {A B : Type} (f : B -> bool) (g : A -> B) (l : list A) :
  existsb f (map g l) = existsb (fun x => f (g x)) l.
Proof.
  induction l as [ | x l IH ]; simpl; [ reflexivity | ].
  rewrite IH. reflexivity.
Qed.

Lemma node_of_row (graph_id : Z) (kwargs : list (string * list pyval))
    (item : pykey) (i : nat) :
  NoDup (map fst kwargs) ->
  node_of graph_id (map fst kwargs)
    (item, Some (map (fun c => nth i c VNullValue) (map snd kwargs)))
  = if existsb (fun kv => match nth i (snd kv) VNullValue with
                          | VNullValue => true
                          | _ => false
                          end) kwargs
    then Refused (Uncaught
           (TypeError "Object of type NullValue is not JSON serializable"))
    else Checked
           {| mn_node_id := VInt (_hash item); mn_graph_id := graph_id;
              mn_meta := map (fun kv => (fst kv, nth i (snd kv) VNullValue))
                           kwargs |}.
Proof.
  intros Hnd. unfold node_of. cbn [fst snd].
  rewrite dict_of_zip_nodup;
    [ | exact Hnd | rewrite !length_map; reflexivity ].
  rewrite combine_columns. unfold json_dumps.
  rewrite existsb_of_map. cbn [snd].
  destruct (existsb _ kwargs); [ reflexivity | apply check_node_hashed ].
Qed.



(** X19. What [add_nodes] does never depends on the text of the filler
    object: a row whose identifier is the filler has the filler in its
    column [id_src] too, and is refused before anything is stored. *)
Theorem add_nodes_ignores_filler_text (str_of_float : Q -> string)
    (text text' : string) (graph_id : Z)
    (kwargs : list (string * list pyval)) (w : world) :
  NoDup (map fst kwargs) ->
  add_nodes str_of_float text graph_id kwargs w
  = add_nodes str_of_float text' graph_id kwargs w.
Proof.
  intros Hnd. unfold add_nodes.
  destruct (len (map fst kwargs) =? 0); [ reflexivity | ].
  destruct (mem_string "id" (map fst kwargs)); [ reflexivity | ].
  rewrite !add_nodes_zipped, !node_mapM_map.
  rewrite (node_mapM_agree _
             (fun i =>
                node_of graph_id (map fst kwargs)
                  (match kwargs_get "id_src" kwargs with
                   | Some id_src =>
                       hashable str_of_float text' (nth i id_src VNullValue)
                   | None => KInt (Z.of_nat i)
                   end,
                   Some (map (fun c => nth i c VNullValue) (map snd kwargs)))));
    [ reflexivity | ].
  intros i _.
  destruct (kwargs_get "id_src" kwargs) as [id_src | ] eqn:Hget;
    [ | reflexivity ].
  destruct (nth i id_src VNullValue) eqn:Hv; try reflexivity.
  rewrite !(node_of_row graph_id kwargs _ i Hnd).
  replace (existsb _ kwargs) with true; [ reflexivity | ].
  symmetry. apply existsb_exists. exists ("id_src", id_src).
  split; [ apply kwargs_get_In, Hget | ]. cbn [snd]. rewrite Hv. reflexivity.
Qed.

(** ** The guards on nodes and edges *)

Lemma check_node_spec (n : model_node) :
  (node_accepted n -> check_node n = Checked n)
  /\ (forall n', check_node n = Checked n' -> n' = n /\ node_accepted n)
  /\ (forall e, check_node n = Refused e ->
        (exists msg, e = InvalidNodeError msg)
        \/ exists msg, e = Uncaught (TypeError msg)).
Proof.
  unfold node_accepted, check_node.
  destruct (py_int (mn_node_id n)) as [z | e0] eqn:Hz.
  - destruct (String.eqb_spec DB_URL "sqlite://") as [Hurl | Hurl].
    + rewrite andb_true_r. destruct (Z.ltb_spec SQLITE_MAX_SIZE z) as [Hbig | Hok].
      * split; [ | split ].
        -- intros [z' [Hz' Hb]]. injection Hz' as <-. specialize (Hb Hurl). lia.
        -- intros n' H. discriminate H.
        -- intros e H. injection H as <-. left. eexists. reflexivity.
      * split; [ | split ].
        -- intros _. reflexivity.
        -- intros n' H. injection H as <-. split; [ reflexivity | ].
           exists z. split; [ reflexivity | intros _; exact Hok ].
        -- intros e H. discriminate H.
    + rewrite andb_false_r. split; [ | split ].
      * intros _. reflexivity.
      * intros n' H. injection H as <-. split; [ reflexivity | ].
        exists z. split; [ reflexivity | intros H; contradiction ].
      * intros e H. discriminate H.
  - pose proof (py_int_rejection _ _ Hz) as Hr.
    split; [ | split ].
    + intros [z [Hz' _]]. discriminate Hz'.
    + intros n' H. destruct e0; discriminate H.
    + intros e H. destruct e0; try contradiction; injection H as <-.
      * left. eexists. reflexivity.
      * right. eexists. reflexivity.
Qed.

Lemma check_edge_spec (edge : model_edge) :
  (edge_accepted edge -> check_edge edge = Ok edge)
  /\ (forall e, check_edge edge = Raise e ->
        (exists msg, e = InvalidEdgeError msg) \/ exists msg, e = TypeError msg).
Proof.
  unfold edge_accepted, check_edge.
  destruct (py_int (me_start edge)) as [a | e1] eqn:Ha.
  2:{ pose proof (py_int_rejection _ _ Ha) as Hr. split.
      - intros (a & b & Ha' & _). discriminate Ha'.
      - intros e H. destruct e1; try contradiction; injection H as <-.
        + left. eexists. reflexivity.
        + right. eexists. reflexivity. }
  destruct (py_int (me_end edge)) as [b | e2] eqn:Hb.
  2:{ pose proof (py_int_rejection _ _ Hb) as Hr. split.
      - intros (a' & b & _ & Hb' & _). discriminate Hb'.
      - intros e H. destruct e2; try contradiction; injection H as <-.
        + left. eexists. reflexivity.
        + right. eexists. reflexivity. }
  destruct (Z.eqb_spec a b) as [Hab | Hab]; split.
  - intros (a' & b' & Ha' & Hb' & Hne). congruence.
  - intros e H. injection H as <-. left. eexists. reflexivity.
  - intros _. reflexivity.
  - intros e H. discriminate H.
Qed.

(** X20. [check_nodes] and [check_edges] hand back the rows they were
    given, unchanged and all of them, exactly when every row is
    acceptable: a node identifier that coerces to an integer (within
    the bound of SQLite on that backend), two ends of an edge that
    coerce to different integers.  Otherwise they raise
    [InvalidNodeError], respectively [InvalidEdgeError], except for a
    field that is no number and no string, whose [TypeError] they let
    through. *)
Theorem ingestion_guards (ns ns' : list model_node) (es es' : list model_edge) :
  (check_nodes ns = Checked ns' <-> ns' = ns /\ Forall node_accepted ns)
  /\ (check_edges es = Ok es' <-> es' = es /\ Forall edge_accepted es)
  /\ (forall e, check_nodes ns = Refused e ->
        (exists msg, e = InvalidNodeError msg)
        \/ exists msg, e = Uncaught (TypeError msg))
  /\ (forall e, check_edges es = Raise e ->
        (exists msg, e = InvalidEdgeError msg) \/ exists msg, e = TypeError msg).
Proof.
  split; [ | split; [ | split ] ].
  - unfold check_nodes. split.
    + intros H. apply node_mapM_Checked_inv in H.
      induction H as [ | n n' l l' Hn _ [IH1 IH2] ].
      * split; [ reflexivity | constructor ].
      * destruct (proj1 (proj2 (check_node_spec n)) n' Hn) as [-> Hacc].
        subst l'. split; [ reflexivity | constructor; assumption ].
    + intros [-> Hall]. induction Hall as [ | n l Hn _ IH ]; simpl.
      * reflexivity.
      * rewrite (proj1 (check_node_spec n) Hn), IH. reflexivity.
  - unfold check_edges. split.
    + intros H. apply mapM_Ok_Forall2 in H.
      induction H as [ | e e' l l' He _ [IH1 IH2] ].
      * split; [ reflexivity | constructor ].
      * apply check_edge_Ok_inv in He as [-> Hacc].
        subst l'. split; [ reflexivity | constructor; assumption ].
    + intros [-> Hall]. rewrite (mapM_total check_edge (fun e => e)).
      * rewrite map_id. reflexivity.
      * intros e He. rewrite Forall_forall in Hall.
        apply (proj1 (check_edge_spec e)), Hall, He.
  - intros e H. apply node_mapM_Refused_inv in H as [n [_ Hn]].
    apply (proj2 (proj2 (check_node_spec n)) e Hn).
  - intros e H. apply mapM_Raise_inv in H as [x [_ Hx]].
    apply (proj2 (check_edge_spec x) e Hx).
Qed.

(** X21. Which target edges [_target_edges] returns: a stored row of
    the target graph, in the direction from the smaller identifier to
    the larger, is returned exactly when its start is the smaller end
    of one of the scratch edges and its end is the larger end of one
    of them, which need not be the same scratch edge. *)
Theorem target_edges_returned (query_id : Z) (s : store) (arr : list arr_row)
    (e : Edge) :
  In e (target_edges_of query_id s arr)
  <-> exists row q,
        In q (query_rows query_id s) /\ In row (edges s)
        /\ e_graph_id row = end_graph_id q
        /\ e_start row < e_end row
        /\ (exists e1, In e1 (scratch_edges (target_nodes_of query_id s) arr)
                       /\ e_start row = Z.min (start e1) (end_ e1))
        /\ (exists e2, In e2 (scratch_edges (target_nodes_of query_id s) arr)
                       /\ e_end row = Z.max (start e2) (end_ e2))
        /\ e = mkEdge (e_start row) (e_end row) RTarget (Some (e_meta row)).
Proof.
  unfold target_edges_of. rewrite sorted_In. unfold select_target_edges.
  set (near := scratch_edges (target_nodes_of query_id s) arr).
  rewrite in_map_iff. split.
  - intros [row [<- Hrow]].
    apply nodup_In, in_flat_map in Hrow as [q [Hq Hrow]].
    apply filter_In in Hrow as [Hrow Hsel].
    apply andb_prop in Hsel as [Hsel Hlt].
    apply andb_prop in Hsel as [Hsel Hend].
    apply andb_prop in Hsel as [Hg Hstart].
    apply Z.eqb_eq in Hg. apply Z.ltb_lt in Hlt.
    apply mem_Z_In, in_map_iff in Hstart as [e1 [He1 Hin1]].
    apply mem_Z_In, in_map_iff in Hend as [e2 [He2 Hin2]].
    exists row, q. repeat split; try assumption.
    + exists e1. split; [ exact Hin1 | symmetry; exact He1 ].
    + exists e2. split; [ exact Hin2 | symmetry; exact He2 ].
  - intros (row & q & Hq & Hrow & Hg & Hlt & [e1 [Hin1 He1]] & [e2 [Hin2 He2]]
            & ->).
    exists row. split; [ reflexivity | ].
    apply nodup_In, in_flat_map. exists q. split; [ exact Hq | ].
    apply filter_In. split; [ exact Hrow | ].
    rewrite !andb_true_iff. repeat split.
    + apply Z.eqb_eq, Hg.
    + apply mem_Z_In, in_map_iff. exists e1. split; [ symmetry; exact He1 | exact Hin1 ].
    + apply mem_Z_In, in_map_iff. exists e2. split; [ symmetry; exact He2 | exact Hin2 ].
    + apply Z.ltb_lt, Hlt.
Qed.

End Api.

(** * The sample, run *)

Example sha256_abc :
  SHA256.digest_int (bytes_of_string "abc")
  = 0xba7816bf8f01cfea414140de5dae2223b00361a396177a9cb410ff61f20015ad.
Proof. vm_compute. reflexivity. Qed.

Example sha256_empty :
  SHA256.digest_int (bytes_of_string EmptyString)
  = 0xe3b0c44298fc1c149afbf4c8996fb92427ae41e4649b934ca495991b7852b855.
Proof. vm_compute. reflexivity. Qed.

Example str_of_pair : str (KTuple [KInt 7; KStr "target"]) = "(7, 'target')".
Proof. reflexivity. Qed.

Example str_of_singleton : str (KTuple [KTuple [KInt (-1); KInt 2]]) = "((-1, 2),)".
Proof. reflexivity. Qed.

Example hash_of_target_7 : _hash P64 (KTuple [KInt 7; KStr "target"]) = 1556360984.
Proof. vm_compute. reflexivity. Qed.

Example hash_of_negative : _hash P64 (KInt (-3)) = 2147483644.
Proof. reflexivity. Qed.

Lemma sample_run :
  execute P64 unit sample_join sample_solve 0 5 2 10 sample_world
  = (Ok sample_result, after_optimise 0 2 10 sample_world).
Proof. vm_compute. reflexivity. Qed.

Lemma sample_solve_bounded (recs : list unit) (h mi : Z) (sol : solution) :
  sample_solve recs h mi = Ok sol -> costs_bounded sol.
Proof.
  intros H. injection H as <-.
  intros k c [Hc | [Hc | []]]; injection Hc as <- <-;
    split; unfold Qle; simpl; lia.
Qed.

Lemma sample_keyed : keyed sample_store.
Proof.
  split; simpl.
  - repeat (constructor;
            [ simpl; unfold edge_key; simpl; intuition discriminate | ]).
    constructor.
  - constructor; [ intros [] | constructor ].
Qed.

Lemma execute_no_matches_raises_witness :
  count_matches 0 (db unmatched_world) = 0
  /\ exists msg,
       execute P64 unit sample_join sample_solve 0 5 2 10 unmatched_world
       = (Raise (ValueError msg), unmatched_world)
       /\ calls (snd (execute P64 unit sample_join sample_solve 0 5 2 10
                        unmatched_world))
          = calls unmatched_world
       /\ (query_exists 0 (db unmatched_world) = true ->
           msg = "Cannot execute query with no matches").
Proof.
  split; [ reflexivity | ].
  apply execute_no_matches_raises. reflexivity.
Defined.


Lemma _hash_range_and_determinism_witness :
  0 <= _hash P64 (KTuple [KInt 7; KStr "target"]) < MAX_SIZE P64.
Proof.
  exact (proj1 (_hash_range_and_determinism P64 (KTuple [KInt 7; KStr "target"]))).
Defined.


Lemma match_edge_weights_witness :
  (forall (recs : list unit) (h' mi : Z) (sol : solution),
      sample_solve recs h' mi = Ok sol -> costs_bounded sol)
  /\ execute P64 unit sample_join sample_solve 0 5 2 10 sample_world
     = (Ok sample_result, after_optimise 0 2 10 sample_world)
  /\ exists (sol : solution) (scores : list Q),
       sample_solve (sample_join (db sample_world) 0 2) 2 10 = Ok sol
       /\ Forall2
            (fun (x : nat * Q) (g : graph) =>
               let S := nth (fst x) (subgraphs sol) [] in
               exists ms rest : list pydict,
                 links g = ms ++ rest
                 /\ Permutation (sorted pair_lt S) S
                 /\ Forall2
                      (fun (st : Z * Z) (m : pydict) =>
                         exists c : Q,
                           costs_get st (inference_costs sol) = Ok c
                           /\ m = match_payload P64 st (1 - c)
                           /\ dict_get "weight" m = Some (VFloat (1 - c))
                           /\ (0 <= 1 - c <= 1)%Q)
                      (sorted pair_lt S) ms)
            (slice_to (Z.min 5 (len (subgraphs sol))) (rank P64 (subgraphs sol) scores))
            (r_graphs sample_result)
       /\ (forall c : Q, (0 <= 1 - c <= 1)%Q <-> (0 <= c <= 1)%Q).
Proof.
  split; [ exact sample_solve_bounded | ].
  split; [ exact sample_run | ].
  exact (match_edge_weights P64 unit sample_join sample_solve 0 5 2 10
           sample_world _ sample_result sample_solve_bounded sample_run).
Defined.



Lemma check_matches_guard_witness :
  Forall (match_accepted P64) (matches sample_store)
  /\ check_matches P64 (matches sample_store) = Ok (matches sample_store).
Proof.
  assert (H : Forall (match_accepted P64) (matches sample_store)).
  { repeat constructor; try (eexists; reflexivity);
      eexists; (split; [ reflexivity | split; unfold Qlt, Qle; simpl; lia ]). }
  split; [ exact H | ].
  exact (proj1 (check_matches_guard P64 (matches sample_store)) H).
Defined.

(** A match whose start equals its end passes the guard, and
    [add_matches] stores it; identifiers that are not integers are
    hashed by [add_matches], not refused, and a fractional start passes
    [check_matches], whose [int] truncates it. *)
Lemma self_correspondence_accepted :
  m_start self_match = m_end self_match
  /\ check_matches P64 [self_match] = Ok [self_match]
  /\ add_matches P64 0 [KInt 5] [KInt 5] [VFloat (1 # 2)] [] unmatched_world
     = (Ok tt,
        {| db := add_all_matches [self_match] (db unmatched_world);
           calls := [] |})
  /\ fst (add_matches P64 0 [KStr "a"] [KStr "b"] [VFloat (1 # 2)] []
            unmatched_world) = Ok tt
  /\ check_matches P64 [fractional_match] = Ok [fractional_match].
Proof.
  split; [ reflexivity | ].
  repeat split; vm_compute; reflexivity.
Qed.



Lemma target_edges_cutoff_witness :
  3 <> 2
  /\ exists tn' arr', scratch_edges tn' arr' <> scratch_edges_within 3 tn' arr'.
Proof.
  assert (H : 3 <> 2) by discriminate.
  split; [ exact H | ].
  exact (proj1 (proj2 (proj2 (proj2
           (target_edges_cutoff P64 unit sample_join sample_solve 0 [] []
              sample_world 3)))) H).
Defined.

Lemma sample_query_exists : query_exists 0 (db sample_world) = true.
Proof. reflexivity. Qed.

Lemma sample_has_matches : count_matches 0 (db sample_world) <> 0.
Proof. discriminate. Qed.

Lemma execute_optimises_once_witness :
  calls (snd (execute P64 unit sample_join sample_solve 0 5 2 10 sample_world))
  = calls sample_world ++ [EvJoin 0 2; EvSolve 2 10]
  /\ db (snd (execute P64 unit sample_join sample_solve 0 5 2 10 sample_world))
     = db sample_world
  /\ (forall e,
        sample_solve (sample_join (db sample_world) 0 2) 2 10 = Raise e ->
        fst (execute P64 unit sample_join sample_solve 0 5 2 10 sample_world)
        = Raise e).
Proof.
  exact (execute_optimises_once P64 unit sample_join sample_solve 0 5 2 10
           sample_world sample_query_exists sample_has_matches).
Defined.

Lemma sample_subgraphs_costed (S : list (Z * Z)) :
  In S (subgraphs sample_solution) ->
  S <> [] /\ forall k, In k S ->
               exists c, costs_get k (inference_costs sample_solution) = Ok c.
Proof.
  intros [<- | [<- | []]]; (split; [ discriminate | ]).
  - intros k [<- | []]. eexists. reflexivity.
  - intros k [<- | [<- | []]]; eexists; reflexivity.
Qed.

Lemma execute_returns_witness :
  select_query_nodes 0 (db sample_world) <> []
  /\ exists r,
       execute P64 unit sample_join sample_solve 0 5 2 10 sample_world
       = (Ok r, after_optimise 0 2 10 sample_world).
Proof.
  assert (H : select_query_nodes 0 (db sample_world) <> []) by discriminate.
  split; [ exact H | ].
  exact (execute_returns P64 unit sample_join sample_solve 0 5 2 10 sample_world
           sample_solution sample_query_exists sample_has_matches H eq_refl
           sample_subgraphs_costed).
Defined.

Lemma execute_result_envelope_witness :
  exists sol,
    sample_solve (sample_join (db sample_world) 0 2) 2 10 = Ok sol
    /\ r_iters sample_result = iters sol
    /\ r_hopping_distance sample_result = 2
    /\ r_max_iters sample_result = 10
    /\ Forall (fun g => is_multigraph g = false) (r_graphs sample_result)
    /\ len (r_graphs sample_result)
       = if 0 <=? 5 then Z.min 5 (len (subgraphs sol))
         else Z.max 0 (len (subgraphs sol) + 5).
Proof.
  exact (execute_result_envelope P64 unit sample_join sample_solve 0 5 2 10
           sample_world _ sample_result sample_run).
Defined.

Lemma hollow_scores :
  _get_scores (inference_costs hollow_solution)
    (query_nodes_of 0 (db sample_world)) (subgraphs hollow_solution)
    (sz hollow_solution)
  = Ok [ ((0 + (2 - inject_Z 0)) / inject_Z 2)%Q;
         ((0 + (1 # 4) + (2 - inject_Z 1)) / inject_Z 2)%Q ].
Proof. reflexivity. Qed.

Lemma hollow_selected :
  exists x,
    In x (slice_to (Z.min 5 (len (subgraphs hollow_solution)))
            (rank P64 (subgraphs hollow_solution)
               [ ((0 + (2 - inject_Z 0)) / inject_Z 2)%Q;
                 ((0 + (1 # 4) + (2 - inject_Z 1)) / inject_Z 2)%Q ]))
    /\ nth (fst x) (subgraphs hollow_solution) [] = [].
Proof.
  exists (0%nat, ((0 + (2 - inject_Z 0)) / inject_Z 2)%Q).
  split; [ vm_compute; tauto | reflexivity ].
Qed.

Lemma execute_empty_subgraph_raises_witness :
  nth 0 (subgraphs hollow_solution) [(0, 0)] = []
  /\ execute P64 unit sample_join hollow_solve 0 5 2 10 sample_world
     = (Raise (ValueError "not enough values to unpack (expected 2, got 0)"),
        after_optimise 0 2 10 sample_world).
Proof.
  split; [ reflexivity | ].
  exact (execute_empty_subgraph_raises P64 unit sample_join hollow_solve
           0 5 2 10 sample_world hollow_solution _
           sample_query_exists sample_has_matches eq_refl hollow_scores
           hollow_selected).
Defined.

Lemma sample_first_costed :
  exists S rest,
    subgraphs sample_solution = S :: rest
    /\ forall k, In k S ->
         exists c, costs_get k (inference_costs sample_solution) = Ok c.
Proof.
  eexists. eexists. split; [ reflexivity | ].
  intros k [<- | []]. eexists. reflexivity.
Qed.

Lemma costless_pair_missing :
  exists S k,
    In S (subgraphs costless_solution) /\ In k S
    /\ costs_get k (inference_costs costless_solution) = Raise (KeyError k).
Proof.
  exists [(1, 33477)], (1, 33477).
  split; [ left; reflexivity | ]. split; [ left; reflexivity | reflexivity ].
Qed.

Lemma execute_score_errors_witness :
  execute P64 unit sample_join sample_solve 0 5 2 10 nodeless_world
  = (Raise ZeroDivisionError, after_optimise 0 2 10 nodeless_world)
  /\ exists k',
       execute P64 unit sample_join costless_solve 0 5 2 10 sample_world
       = (Raise (KeyError k'), after_optimise 0 2 10 sample_world).
Proof.
  split.
  - exact (proj1 (execute_score_errors P64 unit sample_join sample_solve
                    0 5 2 10 nodeless_world sample_solution
                    eq_refl sample_has_matches eq_refl)
             eq_refl sample_first_costed).
  - assert (H : select_query_nodes 0 (db sample_world) <> []) by discriminate.
    exact (proj2 (execute_score_errors P64 unit sample_join costless_solve
                    0 5 2 10 sample_world costless_solution
                    sample_query_exists sample_has_matches eq_refl)
             H costless_pair_missing).
Defined.

Lemma add_edges_modular_ids_witness :
  _hash P64 (KInt 2147483650) = _hash P64 (KInt 3)
  /\ add_edges P64 0 [KInt 2147483650] [KInt 3] [] unmatched_world
     = (Raise (InvalidEdgeError "edges must start and end on different nodes"),
        unmatched_world).
Proof.
  assert (H : _hash P64 (KInt 2147483650) = _hash P64 (KInt 3)) by reflexivity.
  split; [ exact H | ].
  exact (proj2 (proj2 (add_edges_modular_ids P64 0 unmatched_world)) _ _ H).
Defined.

Lemma sample_match_added :
  add_matches P64 0 [KInt 1] [KInt 33477] [VFloat (1 # 2)] [] unmatched_world
  = (Ok tt,
     snd (add_matches P64 0 [KInt 1] [KInt 33477] [VFloat (1 # 2)] []
            unmatched_world)).
Proof. vm_compute. reflexivity. Qed.

Lemma add_matches_grows_len_witness :
  __len__ 0 (snd (add_matches P64 0 [KInt 1] [KInt 33477] [VFloat (1 # 2)] []
                    unmatched_world))
  = (Ok (count_matches 0 (db unmatched_world) + len [KInt 1]),
     snd (add_matches P64 0 [KInt 1] [KInt 33477] [VFloat (1 # 2)] []
            unmatched_world)).
Proof.
  exact (proj1 (proj2 (proj2 (proj2
           (add_matches_grows_len P64 unit sample_join sample_solve 0
              [KInt 1] [KInt 33477] [VFloat (1 # 2)] [] unmatched_world _
              (NoDup_nil _) sample_match_added))))).
Defined.

Lemma to_dict_metadata_wins_witness :
  NoDup (map fst (nmeta typed_node))
  /\ dict_get "type" (Node_to_dict P64 typed_node) = Some (VStr "city").
Proof.
  assert (H : NoDup (map fst (nmeta typed_node))).
  { constructor; [ intros [] | constructor ]. }
  split; [ exact H | ].
  exact (proj1 (to_dict_metadata_wins P64 "type") typed_node H).
Defined.

Lemma sample_node_keys : NoDup (map node_key (nodes sample_store)).
Proof.
  repeat (constructor;
          [ simpl; unfold node_key; simpl; intuition discriminate | ]).
  constructor.
Qed.

Lemma sorted_reads_ignore_row_order_witness :
  Permutation (nodes sample_store) (nodes reversed_store)
  /\ Permutation (edges sample_store) (edges reversed_store)
  /\ query_nodes_of 0 reversed_store = query_nodes_of 0 sample_store
  /\ target_nodes_of 0 reversed_store = target_nodes_of 0 sample_store
  /\ query_edges_of 0 reversed_store = query_edges_of 0 sample_store
  /\ target_edges_of 0 reversed_store (target_edges_arr sample_solution)
     = target_edges_of 0 sample_store (target_edges_arr sample_solution).
Proof.
  assert (Hn : Permutation (nodes sample_store) (nodes reversed_store))
    by apply Permutation_rev.
  assert (He : Permutation (edges sample_store) (edges reversed_store))
    by apply Permutation_rev.
  split; [ exact Hn | ]. split; [ exact He | ].
  exact (sorted_reads_ignore_row_order 0 sample_store reversed_store
           (target_edges_arr sample_solution)
           (proj2 sample_keyed) sample_node_keys (proj1 sample_keyed)
           eq_refl Hn He).
Defined.

Lemma GraphHandle_create_fresh_witness :
  exists g w',
    GraphHandle_create sample_world = (Ok g, w')
    /\ (forall g', In g' (graphs (db sample_world)) -> g' < g)
    /\ (graphs (db sample_world) = [] -> g = 0)
    /\ graphs (db w') = graphs (db sample_world) ++ [g]
    /\ nodes (db w') = nodes (db sample_world)
    /\ edges (db w') = edges (db sample_world)
    /\ queries (db w') = queries (db sample_world)
    /\ matches (db w') = matches (db sample_world)
    /\ calls w' = calls sample_world
    /\ GraphHandle_read g w' = (Ok g, w')
    /\ ((forall n, In n (nodes (db sample_world)) ->
           In (n_graph_id n) (graphs (db sample_world))) ->
        GraphHandle___len__ g w' = (Ok 0, w'))
    /\ (forall g', GraphHandle_read g' sample_world = (Ok g', sample_world) ->
                   GraphHandle_read g' w' = (Ok g', w')).
Proof. exact (GraphHandle_create_fresh sample_world). Defined.


Lemma GraphHandle_id_drawn_again_witness :
  GraphHandle_create sample_world
  = (Ok 2, snd (GraphHandle_create sample_world))
  /\ graphs (db (snd (GraphHandle_delete 2 (snd (GraphHandle_create sample_world)))))
     = graphs (db sample_world)
  /\ exists w3,
       GraphHandle_create
         (snd (GraphHandle_delete 2 (snd (GraphHandle_create sample_world))))
       = (Ok 2, w3)
       /\ GraphHandle_read 2 w3 = (Ok 2, w3).
Proof.
  split; [ reflexivity | ].
  exact (GraphHandle_id_drawn_again sample_world
           (snd (GraphHandle_create sample_world))
           (snd (GraphHandle_delete 2 (snd (GraphHandle_create sample_world))))
           2 eq_refl eq_refl).
Defined.

Lemma sample_query_graph (q : query_row) :
  In q (query_rows 0 (db sample_world)) -> start_graph_id q = 0.
Proof. intros [<- | []]. reflexivity. Qed.

Lemma query_outlives_its_graph_witness :
  GraphHandle_delete 0 sample_world
  = (Ok tt, snd (GraphHandle_delete 0 sample_world))
  /\ __len__ 0 (snd (GraphHandle_delete 0 sample_world))
     = (Ok (count_matches 0 (db sample_world)),
        snd (GraphHandle_delete 0 sample_world))
  /\ query_nodes_of 0 (db (snd (GraphHandle_delete 0 sample_world))) = []
  /\ query_edges_of 0 (db (snd (GraphHandle_delete 0 sample_world))) = []
  /\ query_graph 0 (snd (GraphHandle_delete 0 sample_world))
     = (Raise (AttributeError "'NoneType' object has no attribute 'graph_id'"),
        snd (GraphHandle_delete 0 sample_world)).
Proof.
  split; [ reflexivity | ].
  exact (query_outlives_its_graph 0 0 sample_world _ sample_query_exists
           sample_query_graph eq_refl).
Defined.






Lemma uneven_columns_keys : NoDup (map fst uneven_columns).
Proof.
  constructor; [ simpl; intuition discriminate | ].
  constructor; [ intros [] | constructor ].
Qed.


Lemma add_nodes_ignores_filler_text_witness :
  add_nodes P64 sample_float_text sample_filler_text 0 uneven_columns
    unmatched_world
  = add_nodes P64 sample_float_text "<NullValue>" 0 uneven_columns
      unmatched_world.
Proof.
  exact (add_nodes_ignores_filler_text P64 sample_float_text sample_filler_text
           "<NullValue>" 0 uneven_columns unmatched_world uneven_columns_keys).
Defined.

Lemma sample_edges_accepted :
  Forall (edge_accepted P64)
    [ {| me_start := VInt 1; me_end := VStr "2"; me_graph_id := 0;
         me_meta := [] |} ].
Proof.
  constructor; [ | constructor ].
  exists 1, 2. repeat split. discriminate.
Qed.

Lemma ingestion_guards_witness :
  check_edges P64
    [ {| me_start := VInt 1; me_end := VStr "2"; me_graph_id := 0;
         me_meta := [] |} ]
  = Ok [ {| me_start := VInt 1; me_end := VStr "2"; me_graph_id := 0;
            me_meta := [] |} ].
Proof.
  exact (proj2 (proj1 (proj2 (ingestion_guards P64 [] [] _ _)))
           (conj eq_refl sample_edges_accepted)).
Defined.

Lemma crossed_neighbours (a b : Z) :
  (a, b) = (1, 2) \/ (a, b) = (3, 4) ->
  In (mkEdge a b RTarget None)
     (scratch_edges (target_nodes_of 0 crossed_store) crossed_arr).
Proof.
  intros [H | H]; injection H as -> ->; vm_compute; tauto.
Qed.

Lemma target_edges_returned_witness :
  ~ In (1, 4) (map (fun r => (u r, uu r)) crossed_arr)
  /\ In (mkEdge 1 4 RTarget (Some []))
        (target_edges_of 0 crossed_store crossed_arr).
Proof.
  split.
  - simpl. intuition discriminate.
  - apply (proj2 (target_edges_returned 0 crossed_store crossed_arr
                    (mkEdge 1 4 RTarget (Some [])))).
    exists {| e_start := 1; e_end := 4; e_graph_id := 1; e_meta := [] |},
           {| q_query_id := 0; start_graph_id := 0; end_graph_id := 1 |}.
    split; [ left; reflexivity | ].
    split; [ left; reflexivity | ].
    split; [ reflexivity | ].
    split; [ reflexivity | ].
    split; [ exists (mkEdge 1 2 RTarget None);
             split; [ apply crossed_neighbours; left; reflexivity | reflexivity ] | ].
    split; [ exists (mkEdge 3 4 RTarget None);
             split; [ apply crossed_neighbours; right; reflexivity | reflexivity ] | ].
    reflexivity.
Defined.
